(** * The job info storage of pkg/jobs/job_info_storage.go

    A shallow embedding of [InfoStorage] (the reader, writer and iterator of
    the [system.job_info] table, with the claim-session check and the legacy
    key adapters), and the properties of its specification.

    The backing transaction ([isql.Txn]) is an external collaborator.  It is
    modelled as an in-memory state holding the two tables the statements of
    the file touch, the value of [now()], a plan of the failures the store
    injects, and the trace of the statements and log calls issued so far.
    A bound [[]byte] parameter is stored as a [DBytes] datum; a Go byte slice
    is a [list byte], so that [nil] and the empty slice coincide, as they do
    for [bytes.Equal].  Tracing spans ([tracing.ChildSpan]) carry no
    behaviour of interest and are left out. *)

From Stdlib Require Import ZArith NArith List String Bool Lia Permutation Sorted.
From Stdlib.Strings Require Import Byte.
From stdpp Require Import base option gmap sorting.
Import ListNotations.

Local Open Scope Z_scope.

(** ** Bytes *)

Abbreviation bytes := (list byte).

(** [[]byte(s)] for a Go string constant. *)
Definition bytes_of_string (s : string) : bytes := list_byte_of_string s.

(** [bytes.Equal]. *)
Fixpoint bytes_Equal (a b : bytes) : bool :=
  match a, b with
  | [], [] => true
  | x :: a', y :: b' => Byte.eqb x y && bytes_Equal a' b'
  | _, _ => false
  end.

(** The order of SQL [BYTES] values: lexicographic on unsigned bytes. *)
Fixpoint bytes_leb (a b : bytes) : bool :=
  match a, b with
  | [], _ => true
  | _ :: _, [] => false
  | x :: a', y :: b' =>
      if (Byte.to_N x <? Byte.to_N y)%N then true
      else if (Byte.to_N x =? Byte.to_N y)%N then bytes_leb a' b'
      else false
  end.

(** ** Datums and errors *)

(** [tree.Datum], as far as the file tells its implementations apart: the
    type assertions of the file accept [*tree.DBytes] and nothing else. *)
Inductive Datum : Type :=
| DBytes (b : bytes)
| DNull
| DInt (n : Z)
| DString (s : string).

(** Arguments of a format string, kept unformatted. *)
Inductive fmt_arg : Type :=
| ArgBytes (b : bytes)      (* a session id, printed with %q *)
| ArgInt (n : Z)            (* a job id, printed with %d *)
| ArgType (d : Datum).      (* the dynamic type of a datum, printed with %T *)

(** Error values, by the constructor of [cockroachdb/errors] that builds
    them.  [External] stands for an error whose type is declared outside
    that package (a cancelled context, a store error with a code). *)
Inductive error : Type :=
| New (msg : string)
| Errorf (format : string) (args : list fmt_arg)
| AssertionFailedf (format : string) (args : list fmt_arg)
| WithSecondary (err other : error)
| External (name : string).

(** What a caller can test an error for without reading its message:
    [New] and [Errorf] build unmarked leaf errors, [AssertionFailedf] marks
    its error as an assertion failure, and a secondary error does not change
    what the primary one is. *)
Inductive error_kind : Type :=
| PlainError
| AssertionFailure
| ExternalError (name : string).

Fixpoint kind_of (e : error) : error_kind :=
  match e with
  | New _ => PlainError
  | Errorf _ _ => PlainError
  | AssertionFailedf _ _ => AssertionFailure
  | WithSecondary e1 _ => kind_of e1
  | External n => ExternalError n
  end.

(** The primary error of an error value. *)
Fixpoint primary (e : error) : error :=
  match e with
  | WithSecondary e1 _ => primary e1
  | _ => e
  end.

(** [errors.CombineErrors]. *)
Definition CombineErrors (err otherErr : option error) : option error :=
  match err, otherErr with
  | None, _ => otherErr
  | Some e, None => Some e
  | Some e, Some o => Some (WithSecondary e o)
  end.

(** ** Tables *)

(** A row of [system.job_info]. *)
Record InfoRow : Type := mkInfoRow {
  job_id : Z;
  info_key : bytes;
  written : Z;
  value : Datum
}.

(** The statements of the file, with their bound parameters; the comment
    gives the operation name each one is issued under. *)
Inductive Stmt : Type :=
| SelectClaimSession (id : Z)                          (* check-claim-session *)
| SelectValue (id : Z) (infoKey : bytes)               (* job-info-get *)
| DeleteInfo (id : Z) (infoKey : bytes)                (* write-job-info-delete *)
| InsertInfo (id : Z) (infoKey value : bytes)          (* write-job-info-insert *)
| SelectInfoIter (id : Z) (n : nat) (prefix : bytes).  (* job-info-iter *)

(** What the handle does to its collaborators, in order. *)
Inductive Event : Type :=
| EvStmt (s : Stmt)
| EvVInfof (level : Z) (format : string) (args : list fmt_arg).

(** The failures the backing store injects: per statement, at the cursor's
    [Next] (after [n] rows, [Next] returns the given flag and error) and at
    the cursor's [Close]. *)
Record Faults : Type := mkFaults {
  stmt_fault : Stmt -> option error;
  next_fault : option (nat * bool * error);
  close_fault : option error
}.

Definition no_faults : Faults :=
  {| stmt_fault := fun _ => None; next_fault := None; close_fault := None |}.

(** The state behind an [isql.Txn]. *)
Record Txn : Type := mkTxn {
  jobs : gmap Z Datum;     (* system.jobs: id to claim_session_id *)
  infos : list InfoRow;    (* system.job_info *)
  now : Z;                 (* now() in this transaction *)
  faults : Faults;
  events : list Event
}.

Definition emit (e : Event) (t : Txn) : Txn :=
  {| jobs := jobs t; infos := infos t; now := now t; faults := faults t;
     events := events t ++ [e] |}.

Definition set_infos (l : list InfoRow) (t : Txn) : Txn :=
  {| jobs := jobs t; infos := l; now := now t; faults := faults t;
     events := events t |}.

(** A transaction begun on the committed tables of [t]. *)
Definition begin_on (t : Txn) (ts : Z) (f : Faults) : Txn :=
  {| jobs := jobs t; infos := infos t; now := ts; faults := f;
     events := events t |}.

(** ** Ordering of result rows *)

Section Sorting.
Context {A : Type} (leb : A -> A -> bool).

Fixpoint insert_sorted (x : A) (l : list A) : list A :=
  match l with
  | [] => [x]
  | y :: l' => if leb x y then x :: l else y :: insert_sorted x l'
  end.

Fixpoint order_by (l : list A) : list A :=
  match l with
  | [] => []
  | x :: l' => insert_sorted x (order_by l')
  end.
End Sorting.

(** [ORDER BY info_key ASC, written DESC]. *)
Definition key_asc_written_desc (r1 r2 : InfoRow) : bool :=
  if bytes_Equal (info_key r1) (info_key r2)
  then written r2 <=? written r1
  else bytes_leb (info_key r1) (info_key r2).

(** [ORDER BY written DESC]. *)
Definition written_desc (r1 r2 : InfoRow) : bool :=
  written r2 <=? written r1.

(** [WHERE job_id = $1 AND info_key = $2]. *)
Definition is_info (id : Z) (infoKey : bytes) (r : InfoRow) : bool :=
  (job_id r =? id) && bytes_Equal (info_key r) infoKey.

(** [WHERE job_id = $1 AND substring(info_key for $2) = $3]. *)
Definition under_prefix (id : Z) (n : nat) (prefix : bytes) (r : InfoRow) : bool :=
  (job_id r =? id) && bytes_Equal (firstn n (info_key r)) prefix.

(** ** The transaction monad: state passing, with Go's panic *)

Inductive outcome (A : Type) : Type :=
| Val (a : A)
| Panic (what : string).
Arguments Val {A} a.
Arguments Panic {A} what.

Definition TxnM (A : Type) : Type := Txn -> outcome A * Txn.

Definition ret {A} (a : A) : TxnM A := fun t => (Val a, t).

Definition bind {A B} (m : TxnM A) (k : A -> TxnM B) : TxnM B :=
  fun t => match m t with
           | (Val a, t') => k a t'
           | (Panic w, t') => (Panic w, t')
           end.

Definition panic {A} (what : string) : TxnM A := fun t => (Panic what, t).

Notation "'run' x <- m ; k" := (bind m (fun x => k))
  (at level 10, x name, m at level 100, k at level 200, only parsing).
Notation "'run' ' p <- m ; k" := (bind m (fun x => match x with p => k end))
  (at level 10, p pattern, m at level 100, k at level 200, only parsing).

(** ** The statements, as the store executes them *)

(** [QueryRowEx] of [SELECT claim_session_id FROM system.jobs WHERE id = $1]:
    the one column of the one row, or no row. *)
Definition select_claim_session_id (id : Z) : TxnM (option Datum * option error) :=
  fun t =>
    let t' := emit (EvStmt (SelectClaimSession id)) t in
    match stmt_fault (faults t) (SelectClaimSession id) with
    | Some e => (Val (None, Some e), t')
    | None => (Val (jobs t !! id, None), t')
    end.

(** [QueryRowEx] of [SELECT value FROM system.job_info WHERE job_id = $1 AND
    info_key = $2 ORDER BY written DESC LIMIT 1]. *)
Definition select_value (id : Z) (infoKey : bytes) : TxnM (option Datum * option error) :=
  fun t =>
    let t' := emit (EvStmt (SelectValue id infoKey)) t in
    match stmt_fault (faults t) (SelectValue id infoKey) with
    | Some e => (Val (None, Some e), t')
    | None =>
        (Val (option_map value
                (head (order_by written_desc (List.filter (is_info id infoKey) (infos t)))),
              None), t')
    end.

(** [ExecEx] of [DELETE FROM system.job_info WHERE job_id = $1 AND
    info_key = $2]. *)
Definition delete_info (id : Z) (infoKey : bytes) : TxnM (option error) :=
  fun t =>
    let t' := emit (EvStmt (DeleteInfo id infoKey)) t in
    match stmt_fault (faults t) (DeleteInfo id infoKey) with
    | Some e => (Val (Some e), t')
    | None =>
        (Val None,
         set_infos (List.filter (fun r => negb (is_info id infoKey r)) (infos t)) t')
    end.

(** [ExecEx] of [INSERT INTO system.job_info (job_id, info_key, written,
    value) VALUES ($1, $2, now(), $3)]. *)
Definition insert_info (id : Z) (infoKey val : bytes) : TxnM (option error) :=
  fun t =>
    let t' := emit (EvStmt (InsertInfo id infoKey val)) t in
    match stmt_fault (faults t) (InsertInfo id infoKey val) with
    | Some e => (Val (Some e), t')
    | None =>
        (Val None,
         set_infos (infos t ++ [mkInfoRow id infoKey (now t) (DBytes val)]) t')
    end.

(** [log.VInfof]. *)
Definition VInfof (level : Z) (format : string) (args : list fmt_arg) : TxnM unit :=
  fun t => (Val tt, emit (EvVInfof level format args) t).

(** ** Jobs and handles *)

(** A [*Job], as far as the file looks at it: [ID()] and [Session()], whose
    [ID()] is a byte string. *)
Record Job : Type := mkJob {
  ID : Z;
  Session : option bytes
}.

(** [InfoStorage]: a job and a transaction, which may be [nil]. *)
Record InfoStorage : Type := mkInfoStorage {
  j : Job;
  txn : option Txn
}.

(** Runs [m] in the transaction of the handle; [on_nil] is what the
    operation returns when the handle has no transaction. *)
Definition in_txn {A} (i : InfoStorage) (on_nil : A) (m : TxnM A)
  : outcome A * InfoStorage :=
  match txn i with
  | None => (Val on_nil, i)
  | Some t => let '(r, t') := m t in (r, mkInfoStorage (j i) (Some t'))
  end.

(** ** checkClaimSession, get and write *)

Definition checkClaimSession (job : Job) (session : bytes) : TxnM (option error) :=
  run '(row, err) <- select_claim_session_id (ID job);
  match err with
  | Some e => ret (Some e)
  | None =>
      match row with
      | None =>
          ret (Some (Errorf "expected session %q for job ID %d but found none"
                       [ArgBytes session; ArgInt (ID job)]))
      | Some (DBytes storedSession) =>
          if negb (bytes_Equal storedSession session)
          then ret (Some (Errorf "expected session %q but found %q"
                            [ArgBytes session; ArgBytes storedSession]))
          else ret None
      | Some _ =>
          panic "interface conversion: tree.Datum is not *tree.DBytes"
      end
  end.

Definition get_in (job : Job) (infoKey : bytes) : TxnM (bytes * bool * option error) :=
  run '(row, err) <- select_value (ID job) infoKey;
  match err with
  | Some e => ret ([], false, Some e)
  | None =>
      match row with
      | None => ret ([], false, None)
      | Some (DBytes v) => ret (v, true, None)
      | Some d =>
          ret ([], false,
               Some (AssertionFailedf "job info: expected value to be DBytes (was %T)"
                       [ArgType d]))
      end
  end.

Definition get (i : InfoStorage) (infoKey : bytes)
  : outcome (bytes * bool * option error) * InfoStorage :=
  in_txn i
    ([], false, Some (New "cannot access the job info table without an associated txn"))
    (get_in (j i) infoKey).

Definition write_in (job : Job) (infoKey val : bytes) : TxnM (option error) :=
  run claim <- match Session job with
               | Some s => checkClaimSession job s
               | None =>
                   run _ <- VInfof 1 "job %d: writing to the system.job_info with no session ID"
                         [ArgInt (ID job)];
                   ret None
               end;
  match claim with
  | Some e => ret (Some e)
  | None =>
      run err <- delete_info (ID job) infoKey;
      match err with
      | Some e => ret (Some e)
      | None => insert_info (ID job) infoKey val
      end
  end.

Definition write (i : InfoStorage) (infoKey val : bytes)
  : outcome (option error) * InfoStorage :=
  in_txn i
    (Some (New "cannot write to the job info table without an associated txn"))
    (write_in (j i) infoKey val).

(** ** Cursors and iterate *)

(** What one call of [rows.Next] returns: [(true, nil)] with the row that
    [rows.Cur] then gives, whose two columns are those of the SELECT list, or
    a flag with an error.  A cursor with nothing pending returns
    [(false, nil)]. *)
Inductive next_result : Type :=
| NextRow (cur : Datum * Datum)
| NextErr (ok : bool) (e : error).

(** An [isql.Rows]. *)
Record Rows : Type := mkRows {
  pending : list next_result;
  close_err : option error;
  closed : bool
}.

Definition Close (r : Rows) : option error * Rows :=
  (close_err r, mkRows (pending r) (close_err r) true).

Definition result_row (r : InfoRow) : Datum * Datum := (DBytes (info_key r), value r).

(** The calls of [Next] on a cursor over [rows] under a plan [nf]. *)
Definition stream_of (rows : list (Datum * Datum)) (nf : option (nat * bool * error))
  : list next_result :=
  match nf with
  | None => map NextRow rows
  | Some (n, ok, e) => map NextRow (firstn n rows) ++ [NextErr ok e]
  end.

(** [QueryIteratorEx] of [SELECT info_key, value FROM system.job_info WHERE
    job_id = $1 AND substring(info_key for $2) = $3 ORDER BY info_key ASC,
    written DESC]. *)
Definition select_info_iter (id : Z) (n : nat) (prefix : bytes) : TxnM (Rows + error) :=
  fun t =>
    let t' := emit (EvStmt (SelectInfoIter id n prefix)) t in
    match stmt_fault (faults t) (SelectInfoIter id n prefix) with
    | Some e => (Val (inr e), t')
    | None =>
        let rows := order_by key_asc_written_desc
                      (List.filter (under_prefix id n prefix) (infos t)) in
        (Val (inl (mkRows (stream_of (map result_row rows) (next_fault (faults t)))
                     (close_fault (faults t)) false)), t')
    end.

Section Iterate.
(** The visitor [fn], with the state [S] it closes over. *)
Context {S : Type} (fn : S -> bytes -> bytes -> S * option error).

(** The variables of the loop, and the calls of [fn] made so far. *)
Record loop_state : Type := mkLoop {
  prevKey : bytes;
  fn_state : S;
  calls : list (bytes * bytes)
}.

Inductive body_result : Type :=
| Continue (st : loop_state)
| Return (err : option error) (st : loop_state).

(** The body of the loop, from [row := rows.Cur()] on. *)
Definition loop_body (row : Datum * Datum) (st : loop_state) : body_result :=
  match fst row with
  | DBytes infoKey =>
      if bytes_Equal infoKey (prevKey st) then Continue st
      else
        match snd row with
        | DBytes v =>
            let '(s', err) := fn (fn_state st) infoKey v in
            let st' := mkLoop infoKey s' (calls st ++ [(infoKey, v)]) in
            match err with
            | Some e => Return (Some e) st'
            | None => Continue st'
            end
        | d =>
            Return (Some (AssertionFailedf
                            "job info: expected value to be DBytes (was %T)" [ArgType d]))
              (mkLoop infoKey (fn_state st) (calls st))
        end
  | d =>
      Return (Some (AssertionFailedf
                      "job info: expected info_key to be DBytes (was %T)" [ArgType d]))
        st
  end.

(** The loop: the error it leaves in [retErr], the variables at exit, and
    what the cursor still holds. *)
Fixpoint loop (nexts : list next_result) (st : loop_state)
  : option error * loop_state * list next_result :=
  match nexts with
  | [] => (None, st, [])                           (* (false, nil): return err *)
  | NextErr false e :: rest => (Some e, st, rest)  (* the loop ends: return err *)
  | NextErr true e :: rest => (Some e, st, rest)   (* if err != nil: return err *)
  | NextRow row :: rest =>
      match loop_body row st with
      | Continue st' => loop rest st'
      | Return err st' => (err, st', rest)
      end
  end.

(** What a call of [iterate] leaves behind: the returned error, the state
    of the visitor, the calls made to it, and the cursor, if one was
    opened. *)
Record iter_result : Type := mkIter {
  retErr : option error;
  visitor : S;
  visits : list (bytes * bytes);
  cursor : option Rows
}.

(** The loop under the deferred [Close]. *)
Definition iterate_rows (rows : Rows) (s : S) : iter_result :=
  let '(err, st, rest) := loop (pending rows) (mkLoop [] s []) in
  let '(cerr, rows') := Close (mkRows rest (close_err rows) (closed rows)) in
  mkIter (CombineErrors err cerr) (fn_state st) (calls st) (Some rows').

Definition iterate_in (job : Job) (infoPrefix : bytes) (s : S) : TxnM iter_result :=
  run q <- select_info_iter (ID job) (length infoPrefix) infoPrefix;
  match q with
  | inr e => ret (mkIter (Some e) s [] None)
  | inl rows => ret (iterate_rows rows s)
  end.

Definition iterate (i : InfoStorage) (infoPrefix : bytes) (s : S)
  : outcome iter_result * InfoStorage :=
  in_txn i
    (mkIter (Some (New "cannot iterate over the job info table without an associated txn"))
       s [] None)
    (iterate_in (j i) infoPrefix s).
End Iterate.

Arguments loop_state : clear implicits.
Arguments body_result : clear implicits.
Arguments iter_result : clear implicits.

(** ** The exported operations and the legacy adapters *)

Definition Get := get.
Definition Write := write.
Definition Iterate {S} := @iterate S.

Definition legacyPayloadKey : string := "legacy_payload".
Definition legacyProgressKey : string := "legacy_progress".

Definition GetLegacyPayloadKey : bytes := bytes_of_string legacyPayloadKey.
Definition GetLegacyProgressKey : bytes := bytes_of_string legacyProgressKey.

Definition GetLegacyPayload (i : InfoStorage) := Get i (bytes_of_string legacyPayloadKey).
Definition WriteLegacyPayload (i : InfoStorage) (payload : bytes) :=
  Write i (bytes_of_string legacyPayloadKey) payload.
Definition GetLegacyProgress (i : InfoStorage) := Get i (bytes_of_string legacyProgressKey).
Definition WriteLegacyProgress (i : InfoStorage) (progress : bytes) :=
  Write i (bytes_of_string legacyProgressKey) progress.

(** ** Sequences of committed writes *)

(** [committed_writes id key t vs t']: from the tables of [t], the values
    [vs] were written to [key] of job [id], in order, each by a [Write] that
    returned no error, each in a transaction begun on what the previous ones
    left (at any time, under any plan of failures, through any handle of the
    job); [t'] is what the last one left. *)
Inductive committed_writes (id : Z) (key : bytes) : Txn -> list bytes -> Txn -> Prop :=
| cw_first t job ts f v t' :
    ID job = id ->
    Write (mkInfoStorage job (Some (begin_on t ts f))) key v
    = (Val None, mkInfoStorage job (Some t')) ->
    committed_writes id key t [v] t'
| cw_next t vs t1 job ts f v t2 :
    committed_writes id key t vs t1 ->
    ID job = id ->
    Write (mkInfoStorage job (Some (begin_on t1 ts f))) key v
    = (Val None, mkInfoStorage job (Some t2)) ->
    committed_writes id key t (vs ++ [v]) t2.

(** ** What a scan visits *)

(** Strictly ascending order of keys. *)
Definition bytes_ltb (a b : bytes) : bool :=
  bytes_leb a b && negb (bytes_Equal a b).

(** [v] is the value of a row of [l] under key [k] that no row of [l] under
    [k] was written after. *)
Definition newest_of (l : list InfoRow) (k v : bytes) : Prop :=
  exists r, In r l /\ info_key r = k /\ value r = DBytes v
            /\ forall r', In r' l -> info_key r' = k -> written r' <= written r.

(** The calls a scan of the rows [l] makes: keys strictly ascending, each
    with a newest value of its key, none with the empty key. *)
Record good_visits (l : list InfoRow) (cs : list (bytes * bytes)) : Prop := {
  gv_ascending : StronglySorted (fun a b => bytes_ltb a b = true) (map fst cs);
  gv_newest : Forall (fun c => newest_of l (fst c) (snd c)) cs;
  gv_nonempty : Forall (fun c => fst c <> []) cs
}.

(** What the loop maintains once it has consumed the rows [l0] of [l]. *)
Record loop_inv {S : Type} (l l0 : list InfoRow) (st : loop_state S) : Prop := {
  li_seen : Forall (fun x => bytes_leb (info_key x) (prevKey st) = true) l0;
  li_prev : prevKey st = [] \/ exists x, In x l0 /\ info_key x = prevKey st;
  li_calls : Forall (fun c => bytes_leb (fst c) (prevKey st) = true) (calls st);
  li_good : good_visits l (calls st)
}.

(** The rows the query of [iterate] selects, in its order. *)
Definition scanned (job : Job) (infoPrefix : bytes) (t : Txn) : list InfoRow :=
  order_by key_asc_written_desc
    (List.filter (under_prefix (ID job) (length infoPrefix) infoPrefix) (infos t)).

(** A cursor's remaining calls of [Next] that do not start with a row. *)
Definition no_row_ahead (nexts : list next_result) : Prop :=
  match nexts with
  | NextRow _ :: _ => False
  | _ => True
  end.

(** ** A small store, for the examples *)

Definition ex_s1 : bytes := bytes_of_string "session-1".
Definition ex_s2 : bytes := bytes_of_string "session-2".

Definition ex_row (id : Z) (key : string) (ts : Z) (v : string) : InfoRow :=
  mkInfoRow id (bytes_of_string key) ts (DBytes (bytes_of_string v)).

(** Job 7 is claimed by session 1, the claim of job 8 was cleared, and there
    is no job 9.  Job 7 has two revisions of each of three keys, a row under
    the empty key and a row whose value is not a byte string. *)
Definition ex_txn : Txn :=
  {| jobs := <[7 := DBytes ex_s1]> (<[8 := DNull]> ∅);
     infos := [ ex_row 7 "b/1" 1 "b-old"; ex_row 7 "a/2" 2 "a2-old";
                ex_row 7 "a/1" 3 "a1-old"; ex_row 7 "" 4 "empty";
                ex_row 7 "a/1" 5 "a1-new"; ex_row 8 "a/1" 6 "other-job";
                ex_row 7 "b/1" 7 "b-new"; ex_row 7 "a/2" 8 "a2-new";
                mkInfoRow 7 (bytes_of_string "c/bad") 9 DNull ];
     now := 100;
     faults := no_faults;
     events := [] |}.

Definition ex_owner : Job := mkJob 7 (Some ex_s1).
Definition ex_stale : Job := mkJob 7 (Some ex_s2).
Definition ex_unclaimed : Job := mkJob 7 None.
Definition ex_cleared : Job := mkJob 8 (Some ex_s1).
Definition ex_absent : Job := mkJob 9 (Some ex_s1).

(** A visitor that counts its calls and fails on a given key. *)
Definition ex_fail_on (bad : bytes) (e : error) (n : nat) (k v : bytes) : nat * option error :=
  (Datatypes.S n, if bytes_Equal k bad then Some e else None).

(** A visitor error, and a cursor over all the rows of job 7 whose [Close]
    fails. *)
Definition ex_visit_error : error := New "visitor gave up".
Definition ex_close_error : error := External "rows.Close: connection lost".
Definition ex_rows : Rows :=
  {| pending := stream_of (map result_row (scanned ex_owner [] ex_txn)) None;
     close_err := Some ex_close_error;
     closed := false |}.

(** A store that fails the claim lookup with a plain error. *)
Definition ex_io_error : error := New "connection reset by peer".
Definition ex_io_faults : Faults :=
  {| stmt_fault := fun s => match s with
                            | SelectClaimSession _ => Some ex_io_error
                            | _ => None
                            end;
     next_fault := None;
     close_fault := None |}.

(** ** The constructor of handles *)

(** The method [InfoStorage] of a job: its handle in a transaction. *)
Definition Job_InfoStorage (job : Job) (tx : option Txn) : InfoStorage :=
  mkInfoStorage job tx.

(** ** More examples *)

(** A visitor that counts its calls and never fails. *)
Definition ex_count (n : nat) (k v : bytes) : nat * option error :=
  (Datatypes.S n, None).

(** A store that fails every insert into [system.job_info]. *)
Definition ex_insert_error : error := External "duplicate key value".
Definition ex_insert_faults : Faults :=
  {| stmt_fault := fun s => match s with
                            | InsertInfo _ _ _ => Some ex_insert_error
                            | _ => None
                            end;
     next_fault := None;
     close_fault := None |}.

(** ** Ways out of the loop, and the visitor on its own *)

(** [stops_with st x err]: with the loop variables [st], the call of [Next]
    [x] makes the loop return [err] without calling the visitor: [Next]
    failed, or the key is not a byte string, or the key is new and the value
    is not a byte string. *)
Inductive stops_with {S : Type} (st : loop_state S) : next_result -> error -> Prop :=
| stops_next ok e :
    stops_with st (NextErr ok e) e
| stops_key d d' :
    (forall b, d <> DBytes b) ->
    stops_with st (NextRow (d, d'))
      (AssertionFailedf "job info: expected info_key to be DBytes (was %T)" [ArgType d])
| stops_value k d :
    bytes_Equal k (prevKey st) = false ->
    (forall b, d <> DBytes b) ->
    stops_with st (NextRow (DBytes k, d))
      (AssertionFailedf "job info: expected value to be DBytes (was %T)" [ArgType d]).

(** The visitor called on a list of records in turn, from the state [s]: the
    state it ends in and what each call returned. *)
Fixpoint replay {S : Type} (fn : S -> bytes -> bytes -> S * option error)
  (s : S) (cs : list (bytes * bytes)) : S * list (option error) :=
  match cs with
  | [] => (s, [])
  | (k, v) :: cs' =>
      let '(s', e) := fn s k v in
      let '(s'', es) := replay fn s' cs' in
      (s'', e :: es)
  end.

(** * Properties *)

(** ** Bytes *)

Lemma bytes_Equal_eq (a b : bytes) : bytes_Equal a b = true <-> a = b.
Proof.
  revert b; induction a as [|x a IH]; intros [|y b]; simpl; split; try easy.
  - intros [Hx Hab]%andb_true_iff. apply byte_dec_bl in Hx. apply IH in Hab.
    congruence.
  - intros [= -> ->]. apply andb_true_iff; split.
    + now apply byte_dec_lb.
    + now apply IH.
Qed.

Lemma bytes_Equal_refl (a : bytes) : bytes_Equal a a = true.
Proof. now apply bytes_Equal_eq. Qed.

Lemma bytes_Equal_neq (a b : bytes) : bytes_Equal a b = false <-> a <> b.
Proof.
  rewrite <- bytes_Equal_eq. destruct (bytes_Equal a b); split; congruence.
Qed.

Lemma bytes_Equal_sym (a b : bytes) : bytes_Equal a b = bytes_Equal b a.
Proof.
  destruct (bytes_Equal a b) eqn:E.
  - apply bytes_Equal_eq in E; subst. symmetry; apply bytes_Equal_refl.
  - apply bytes_Equal_neq in E. symmetry. apply bytes_Equal_neq. congruence.
Qed.

Lemma to_N_inj (x y : byte) : Byte.to_N x = Byte.to_N y -> x = y.
Proof.
  intros H. pose proof (Byte.of_to_N x) as Hx. rewrite H, Byte.of_to_N in Hx.
  congruence.
Qed.

Lemma bytes_leb_refl (a : bytes) : bytes_leb a a = true.
Proof.
  induction a as [|x a IH]; simpl; [easy|].
  rewrite N.ltb_irrefl, N.eqb_refl. exact IH.
Qed.

Lemma bytes_leb_total (a b : bytes) : bytes_leb a b = true \/ bytes_leb b a = true.
Proof.
  revert b; induction a as [|x a IH]; intros [|y b]; simpl; auto.
  destruct (N.ltb_spec (Byte.to_N x) (Byte.to_N y));
    destruct (N.ltb_spec (Byte.to_N y) (Byte.to_N x)); auto; try lia.
  assert (E : Byte.to_N x = Byte.to_N y) by lia.
  rewrite E, N.eqb_refl. apply IH.
Qed.

Lemma bytes_leb_trans (a b c : bytes) :
  bytes_leb a b = true -> bytes_leb b c = true -> bytes_leb a c = true.
Proof.
  revert b c; induction a as [|x a IH]; intros [|y b] [|z c]; simpl; try easy.
  destruct (N.ltb_spec (Byte.to_N x) (Byte.to_N y));
    destruct (N.ltb_spec (Byte.to_N y) (Byte.to_N z));
    destruct (N.ltb_spec (Byte.to_N x) (Byte.to_N z)); try easy; try lia;
    destruct (N.eqb_spec (Byte.to_N x) (Byte.to_N y));
    destruct (N.eqb_spec (Byte.to_N y) (Byte.to_N z));
    destruct (N.eqb_spec (Byte.to_N x) (Byte.to_N z)); try easy; try lia.
  apply IH.
Qed.

Lemma bytes_leb_antisym (a b : bytes) :
  bytes_leb a b = true -> bytes_leb b a = true -> a = b.
Proof.
  revert b; induction a as [|x a IH]; intros [|y b]; simpl; try easy.
  destruct (N.ltb_spec (Byte.to_N x) (Byte.to_N y));
    destruct (N.ltb_spec (Byte.to_N y) (Byte.to_N x));
    destruct (N.eqb_spec (Byte.to_N x) (Byte.to_N y));
    destruct (N.eqb_spec (Byte.to_N y) (Byte.to_N x)); try easy; try lia.
  intros Hab Hba. f_equal; [now apply to_N_inj | now apply IH].
Qed.

Lemma bytes_leb_nil_r (a : bytes) : bytes_leb a [] = true -> a = [].
Proof. now destruct a. Qed.

(** ** Ordering *)

Section SortingFacts.
Context {A : Type} (leb : A -> A -> bool).
Hypothesis leb_total : forall x y, leb x y = true \/ leb y x = true.
Hypothesis leb_trans : forall x y z, leb x y = true -> leb y z = true -> leb x z = true.

Lemma insert_sorted_perm (x : A) (l : list A) :
  Permutation (insert_sorted leb x l) (x :: l).
Proof.
  induction l as [|y l IH]; simpl; [reflexivity|].
  destruct (leb x y); [reflexivity|].
  rewrite IH. apply perm_swap.
Qed.

Lemma order_by_perm (l : list A) : Permutation (order_by leb l) l.
Proof.
  induction l as [|x l IH]; simpl; [reflexivity|].
  rewrite insert_sorted_perm. now constructor.
Qed.

Lemma insert_sorted_sorted (x : A) (l : list A) :
  StronglySorted (fun a b => leb a b = true) l ->
  StronglySorted (fun a b => leb a b = true) (insert_sorted leb x l).
Proof.
  induction 1 as [|y l Hl IH Hy]; simpl.
  - repeat constructor.
  - destruct (leb x y) eqn:E.
    + constructor; [now constructor|]. constructor; [exact E|].
      eapply List.Forall_impl; [|exact Hy]. intros z Hz. eapply leb_trans; eauto.
    + constructor; [exact IH|].
      eapply Permutation_Forall; [symmetry; apply insert_sorted_perm|].
      constructor; [|exact Hy].
      destruct (leb_total x y); congruence.
Qed.

Lemma order_by_sorted (l : list A) :
  StronglySorted (fun a b => leb a b = true) (order_by leb l).
Proof.
  induction l as [|x l IH]; simpl; [constructor|].
  now apply insert_sorted_sorted.
Qed.

Lemma order_by_In (x : A) (l : list A) : In x (order_by leb l) <-> In x l.
Proof.
  split; apply Permutation_in;
    [apply order_by_perm | symmetry; apply order_by_perm].
Qed.
End SortingFacts.

Lemma key_asc_written_desc_total (r1 r2 : InfoRow) :
  key_asc_written_desc r1 r2 = true \/ key_asc_written_desc r2 r1 = true.
Proof.
  unfold key_asc_written_desc. rewrite (bytes_Equal_sym (info_key r2)).
  destruct (bytes_Equal (info_key r1) (info_key r2)).
  - destruct (Z.leb_spec (written r2) (written r1));
      destruct (Z.leb_spec (written r1) (written r2)); auto; lia.
  - apply bytes_leb_total.
Qed.

Lemma key_asc_written_desc_trans (r1 r2 r3 : InfoRow) :
  key_asc_written_desc r1 r2 = true -> key_asc_written_desc r2 r3 = true ->
  key_asc_written_desc r1 r3 = true.
Proof.
  unfold key_asc_written_desc.
  destruct (bytes_Equal (info_key r1) (info_key r2)) eqn:E12;
    destruct (bytes_Equal (info_key r2) (info_key r3)) eqn:E23;
    destruct (bytes_Equal (info_key r1) (info_key r3)) eqn:E13;
    rewrite ?bytes_Equal_eq, ?bytes_Equal_neq in *; intros H1 H2;
    try congruence.
  - apply Z.leb_le in H1, H2. apply Z.leb_le. lia.
  - exfalso. rewrite E13 in H1. apply E12. rewrite E13.
    now apply bytes_leb_antisym.
  - eapply bytes_leb_trans; eauto.
Qed.

Lemma written_desc_total (r1 r2 : InfoRow) :
  written_desc r1 r2 = true \/ written_desc r2 r1 = true.
Proof.
  unfold written_desc.
  destruct (Z.leb_spec (written r2) (written r1));
    destruct (Z.leb_spec (written r1) (written r2)); auto; lia.
Qed.

Lemma written_desc_trans (r1 r2 r3 : InfoRow) :
  written_desc r1 r2 = true -> written_desc r2 r3 = true -> written_desc r1 r3 = true.
Proof. unfold written_desc. rewrite !Z.leb_le. lia. Qed.

(** ** Reading and writing *)

Ltac unfold_txn :=
  unfold Write, Get, write, get, in_txn, write_in, get_in, checkClaimSession,
    select_claim_session_id, select_value, delete_info, insert_info, VInfof,
    bind, ret, panic in *; simpl in *.

Ltac case_matches :=
  repeat match goal with
    | |- context [match ?x with _ => _ end] => destruct x eqn:?; simpl in *
    | H : context [match ?x with _ => _ end] |- _ => destruct x eqn:?; simpl in *
    end.

Lemma is_info_inserted (id : Z) (key : bytes) (ts : Z) (d : Datum) :
  is_info id key (mkInfoRow id key ts d) = true.
Proof. unfold is_info. simpl. now rewrite Z.eqb_refl, bytes_Equal_refl. Qed.

(** The row a write inserts is the one row of its key that it leaves. *)
Lemma filter_is_info_replaced (id : Z) (key : bytes) (ts : Z) (d : Datum) (l : list InfoRow) :
  List.filter (is_info id key)
    (List.filter (fun r => negb (is_info id key r)) l ++ [mkInfoRow id key ts d])
  = [mkInfoRow id key ts d].
Proof.
  rewrite List.filter_app. simpl. rewrite is_info_inserted.
  replace (List.filter (is_info id key) (List.filter (fun r => negb (is_info id key r)) l))
    with (@nil InfoRow); [reflexivity|].
  induction l as [|r l IH]; simpl; [reflexivity|].
  destruct (is_info id key r) eqn:E; simpl; [exact IH|]. now rewrite E.
Qed.

(** Rows of another job or key pass through a replacement. *)
Lemma filter_other_replaced (id : Z) (key : bytes) (ts : Z) (d : Datum) (l : list InfoRow) :
  List.filter (fun r => negb (is_info id key r))
    (List.filter (fun r => negb (is_info id key r)) l ++ [mkInfoRow id key ts d])
  = List.filter (fun r => negb (is_info id key r)) l.
Proof.
  rewrite List.filter_app. simpl. rewrite is_info_inserted. simpl.
  rewrite app_nil_r.
  induction l as [|r l IH]; simpl; [reflexivity|].
  destruct (is_info id key r) eqn:E; simpl; [exact IH|]. rewrite E. simpl.
  now f_equal.
Qed.

Lemma filter_filter_same {A} (p : A -> bool) (l : list A) :
  List.filter p (List.filter p l) = List.filter p l.
Proof.
  induction l as [|x l IH]; simpl; [reflexivity|].
  destruct (p x) eqn:E; simpl; [rewrite E; now f_equal | exact IH].
Qed.

(** A lookup of another key only sees the rows a write to [key] keeps. *)
Lemma filter_is_info_other (id : Z) (key key' : bytes) (l : list InfoRow) :
  key' <> key ->
  List.filter (is_info id key') (List.filter (fun r => negb (is_info id key r)) l)
  = List.filter (is_info id key') l.
Proof.
  intros Hne. induction l as [|r l IH]; simpl; [reflexivity|].
  destruct (is_info id key r) eqn:E; simpl.
  - rewrite IH. destruct (is_info id key' r) eqn:E'; [|reflexivity].
    unfold is_info in E, E'. apply andb_true_iff in E as [_ E], E' as [_ E'].
    apply bytes_Equal_eq in E, E'. congruence.
  - now rewrite IH.
Qed.

(** What a successful [write] leaves. *)
Lemma write_in_done (job : Job) (key v : bytes) (t t' : Txn) :
  write_in job key v t = (Val None, t') ->
  infos t' = List.filter (fun r => negb (is_info (ID job) key r)) (infos t)
               ++ [mkInfoRow (ID job) key (now t) (DBytes v)]
  /\ jobs t' = jobs t /\ now t' = now t /\ faults t' = faults t.
Proof.
  unfold_txn. case_matches; intros; simplify_eq; simpl; auto.
Qed.

(** Whatever it returns, [write] keeps the rows of other jobs and keys, and
    the other fields of the transaction. *)
Lemma write_in_frame (job : Job) (key v : bytes) (t t' : Txn) (r : outcome (option error)) :
  write_in job key v t = (r, t') ->
  List.filter (fun r => negb (is_info (ID job) key r)) (infos t')
  = List.filter (fun r => negb (is_info (ID job) key r)) (infos t)
  /\ jobs t' = jobs t /\ now t' = now t /\ faults t' = faults t.
Proof.
  unfold_txn.
  case_matches; intros; simplify_eq; simpl;
    rewrite ?filter_other_replaced, ?filter_filter_same; auto.
Qed.

(** [get] on a key with exactly one row. *)
Lemma get_in_single (job : Job) (key : bytes) (t : Txn) (r : InfoRow) :
  stmt_fault (faults t) (SelectValue (ID job) key) = None ->
  List.filter (is_info (ID job) key) (infos t) = [r] ->
  fst (get_in job key t)
  = Val (match value r with
         | DBytes v => (v, true, None)
         | d => ([], false,
                 Some (AssertionFailedf "job info: expected value to be DBytes (was %T)"
                         [ArgType d]))
         end).
Proof.
  intros Hf Hr. unfold_txn. rewrite Hf, Hr. simpl. now destruct (value r).
Qed.

(** The row [get] looks at is one of the rows of the key, and none of them
    was written later. *)
Lemma newest_is_max (l : list InfoRow) (r : InfoRow) :
  head (order_by written_desc l) = Some r ->
  In r l /\ forall r', In r' l -> written r' <= written r.
Proof.
  intros Hh.
  pose proof (order_by_sorted written_desc written_desc_total written_desc_trans l) as Hs.
  pose proof (order_by_In written_desc) as Hin.
  destruct (order_by written_desc l) as [|x s] eqn:E; [discriminate|].
  injection Hh as ->. split.
  - apply Hin. rewrite E. now left.
  - intros r' Hr'. apply Hin in Hr'. rewrite E in Hr'. inversion Hs as [|? ? _ Hall]; subst.
    destruct Hr' as [<-|Hr']; [lia|].
    rewrite List.Forall_forall in Hall. specialize (Hall _ Hr').
    unfold written_desc in Hall. now apply Z.leb_le.
Qed.

(** The last write of a committed sequence, in isolation. *)
Lemma committed_writes_last (id : Z) (key : bytes) (t : Txn) (vs : list bytes) (t' : Txn) :
  committed_writes id key t vs t' ->
  exists v job t0, last vs = Some v /\ ID job = id
                   /\ write_in job key v t0 = (Val None, t').
Proof.
  intros H.
  assert (Hw : forall job t0 v,
             Write (mkInfoStorage job (Some t0)) key v
             = (Val None, mkInfoStorage job (Some t')) ->
             write_in job key v t0 = (Val None, t')).
  { intros job t0 v. unfold Write, write, in_txn. simpl.
    destruct (write_in job key v t0) as [r t1]. now intros [= -> ->]. }
  destruct H as [t job ts f v t' Hid HW | t vs t1 job ts f v t2 _ Hid HW].
  - exists v, job, (begin_on t ts f). auto.
  - exists v, job, (begin_on t1 ts f). rewrite last_snoc. auto.
Qed.

(** C1. Latest-wins: after any sequence of writes to one key of one job,
    each of which returned no error and was committed, exactly one row
    exists for that job and key, it holds the last value written, and a
    [Get] of the key whose query the store does not fail, through any handle
    of the job, returns that value with [found = true] and no error. *)
Theorem C1_latest_wins (id : Z) (key : bytes) (t : Txn) (vs : list bytes) (t' : Txn) :
  committed_writes id key t vs t' ->
  exists vN ts,
    last vs = Some vN
    /\ List.filter (is_info id key) (infos t') = [mkInfoRow id key ts (DBytes vN)]
    /\ forall job ts' f,
        ID job = id ->
        stmt_fault f (SelectValue id key) = None ->
        fst (Get (mkInfoStorage job (Some (begin_on t' ts' f))) key)
        = Val (vN, true, None).
Proof.
  intros H. apply committed_writes_last in H as (v & job & t0 & Hlast & Hid & Hw).
  apply write_in_done in Hw as (Hinfos & _).
  exists v, (now t0). split; [exact Hlast|].
  assert (Hrow : List.filter (is_info id key) (infos t')
                 = [mkInfoRow id key (now t0) (DBytes v)]).
  { rewrite Hinfos, Hid. apply filter_is_info_replaced. }
  split; [exact Hrow|].
  intros job' ts' f Hid' Hf.
  unfold Get, get, in_txn. simpl.
  pose proof (get_in_single job' key (begin_on t' ts' f)
                (mkInfoRow id key (now t0) (DBytes v))) as Hg.
  simpl in Hg. rewrite Hid' in Hg. specialize (Hg Hf Hrow).
  destruct (get_in job' key (begin_on t' ts' f)) as [r t1]. exact Hg.
Qed.

(** C5. Result taxonomy of [Get], in a transaction whose query the store
    does not fail: with no row for the job and key, [Get] returns
    [found = false] and no error; when the newest row holds a value that is
    not a byte string, [Get] returns [found = false] with an error, and that
    error is an assertion failure. *)
Theorem C5_get_result_taxonomy (job : Job) (t : Txn) (key : bytes) :
  stmt_fault (faults t) (SelectValue (ID job) key) = None ->
  (List.filter (is_info (ID job) key) (infos t) = [] ->
   fst (Get (mkInfoStorage job (Some t)) key) = Val ([], false, None))
  /\ (forall r,
        head (order_by written_desc (List.filter (is_info (ID job) key) (infos t))) = Some r ->
        (forall b, value r <> DBytes b) ->
        exists e,
          fst (Get (mkInfoStorage job (Some t)) key) = Val ([], false, Some e)
          /\ kind_of e = AssertionFailure).
Proof.
  intros Hf. split.
  - intros Hnone. unfold_txn. now rewrite Hf, Hnone.
  - intros r Hr Hv. unfold_txn. rewrite Hf, Hr. simpl.
    destruct (value r) as [b| | |] eqn:E;
      [now destruct (Hv b) | eexists; split; reflexivity ..].
Qed.

(** C1, on the example store: two writes of the owner to one key, committed
    at different times. *)
Lemma C1_latest_wins_witness :
  exists t', committed_writes 7 (bytes_of_string "a/1") ex_txn
               [bytes_of_string "v1"; bytes_of_string "v2"] t'
  /\ exists vN ts,
      last [bytes_of_string "v1"; bytes_of_string "v2"] = Some vN
      /\ List.filter (is_info 7 (bytes_of_string "a/1")) (infos t')
         = [mkInfoRow 7 (bytes_of_string "a/1") ts (DBytes vN)]
      /\ forall job ts' f,
          ID job = 7 ->
          stmt_fault f (SelectValue 7 (bytes_of_string "a/1")) = None ->
          fst (Get (mkInfoStorage job (Some (begin_on t' ts' f))) (bytes_of_string "a/1"))
          = Val (vN, true, None).
Proof.
  assert (H : { t' | committed_writes 7 (bytes_of_string "a/1") ex_txn
                       [bytes_of_string "v1"; bytes_of_string "v2"] t' }).
  { eexists.
    eapply (cw_next 7 _ ex_txn [bytes_of_string "v1"] _ ex_owner 102 no_faults);
      [eapply (cw_first 7 _ ex_txn ex_owner 101 no_faults) | |];
      reflexivity. }
  destruct H as [t' H]. exists t'. split; [exact H|].
  exact (C1_latest_wins 7 _ ex_txn _ t' H).
Defined.

(** ** The claim check *)

(** C2. Claim fencing: on a handle with a session, when the job has no row
    or its stored claim differs from the session, [Write] returns an error
    having issued the claim lookup and nothing else, neither the delete nor
    the insert, and leaves both tables as they were; when the stored claim
    equals the session and the lookup does not fail, the check returns no
    error and [Write] goes on to the delete, then to the insert, returning
    what they return and, when neither fails, leaving the new row in place of
    the rows of the key. *)
Theorem C2_claim_fencing (job : Job) (s : bytes) (t : Txn) (key v : bytes) :
  Session job = Some s ->
  ((jobs t !! ID job = None
    \/ exists stored, jobs t !! ID job = Some (DBytes stored) /\ stored <> s) ->
   exists e t',
     Write (mkInfoStorage job (Some t)) key v
     = (Val (Some e), mkInfoStorage job (Some t'))
     /\ events t' = events t ++ [EvStmt (SelectClaimSession (ID job))]
     /\ infos t' = infos t /\ jobs t' = jobs t)
  /\ (jobs t !! ID job = Some (DBytes s) ->
      stmt_fault (faults t) (SelectClaimSession (ID job)) = None ->
      fst (checkClaimSession job s t) = Val None
      /\ exists t',
          Write (mkInfoStorage job (Some t)) key v
          = (Val (match stmt_fault (faults t) (DeleteInfo (ID job) key) with
                  | Some e => Some e
                  | None => stmt_fault (faults t) (InsertInfo (ID job) key v)
                  end),
             mkInfoStorage job (Some t'))
          /\ events t'
             = events t
               ++ [EvStmt (SelectClaimSession (ID job)); EvStmt (DeleteInfo (ID job) key)]
               ++ match stmt_fault (faults t) (DeleteInfo (ID job) key) with
                  | Some _ => []
                  | None => [EvStmt (InsertInfo (ID job) key v)]
                  end
          /\ (stmt_fault (faults t) (DeleteInfo (ID job) key) = None ->
              stmt_fault (faults t) (InsertInfo (ID job) key v) = None ->
              infos t' = List.filter (fun r => negb (is_info (ID job) key r)) (infos t)
                           ++ [mkInfoRow (ID job) key (now t) (DBytes v)])).
Proof.
  intros Hs. split.
  - intros Hrow. unfold_txn. rewrite Hs. simpl.
    destruct (stmt_fault (faults t) (SelectClaimSession (ID job))) as [e|]; simpl.
    { eexists _, _. repeat split; reflexivity. }
    destruct Hrow as [-> | (stored & -> & Hne)]; simpl.
    { eexists _, _. repeat split; reflexivity. }
    apply bytes_Equal_neq in Hne. rewrite Hne. simpl.
    eexists _, _. repeat split; reflexivity.
  - intros Hrow Hf. unfold_txn. rewrite Hs. simpl. rewrite Hf, Hrow. simpl.
    rewrite bytes_Equal_refl. simpl. split; [reflexivity|].
    destruct (stmt_fault (faults t) (DeleteInfo (ID job) key)) as [e|]; simpl;
      [|destruct (stmt_fault (faults t) (InsertInfo (ID job) key v)) as [e|]; simpl];
      eexists; (split; [reflexivity|]); simpl; rewrite <- ?app_assoc;
      (split; [reflexivity|]); intros; try discriminate; reflexivity.
Qed.

(** C2, on the example store: a stale session is fenced, a missing job row
    is an error, and the owner writes. *)
Lemma C2_claim_fencing_witness :
  (exists e t',
      Write (mkInfoStorage ex_stale (Some ex_txn)) (bytes_of_string "a/1") (bytes_of_string "v")
      = (Val (Some e), mkInfoStorage ex_stale (Some t'))
      /\ events t' = events ex_txn ++ [EvStmt (SelectClaimSession 7)]
      /\ infos t' = infos ex_txn /\ jobs t' = jobs ex_txn)
  /\ fst (checkClaimSession ex_owner ex_s1 ex_txn) = Val None.
Proof.
  split.
  - apply (C2_claim_fencing ex_stale ex_s2 ex_txn); [reflexivity|].
    right. exists ex_s1. split; [reflexivity | discriminate].
  - apply (C2_claim_fencing ex_owner ex_s1 ex_txn [] []); reflexivity.
Defined.

(** C4. Unclaimed bypass: on a handle without a session, [Write] issues no
    claim lookup; it logs its note at verbosity 1 and goes on to the delete
    and then the insert, whatever the jobs table holds for the job, returning
    what they return and, when neither fails, leaving the new row in place of
    the rows of the key. *)
Theorem C4_unclaimed_bypass (id : Z) (t : Txn) (key v : bytes) :
  exists t',
    Write (mkInfoStorage (mkJob id None) (Some t)) key v
    = (Val (match stmt_fault (faults t) (DeleteInfo id key) with
            | Some e => Some e
            | None => stmt_fault (faults t) (InsertInfo id key v)
            end),
       mkInfoStorage (mkJob id None) (Some t'))
    /\ events t'
       = events t
         ++ [EvVInfof 1 "job %d: writing to the system.job_info with no session ID" [ArgInt id];
             EvStmt (DeleteInfo id key)]
         ++ match stmt_fault (faults t) (DeleteInfo id key) with
            | Some _ => []
            | None => [EvStmt (InsertInfo id key v)]
            end
    /\ jobs t' = jobs t
    /\ (stmt_fault (faults t) (DeleteInfo id key) = None ->
        stmt_fault (faults t) (InsertInfo id key v) = None ->
        infos t' = List.filter (fun r => negb (is_info id key r)) (infos t)
                     ++ [mkInfoRow id key (now t) (DBytes v)]).
Proof.
  unfold_txn.
  destruct (stmt_fault (faults t) (DeleteInfo id key)) as [e|]; simpl;
    [|destruct (stmt_fault (faults t) (InsertInfo id key v)) as [e|]; simpl];
    eexists; (split; [reflexivity|]); simpl; rewrite <- ?app_assoc;
    (split; [reflexivity|]); (split; [reflexivity|]);
    intros; try discriminate; reflexivity.
Qed.

(** C9. The claim check is partial: on a handle with a session, when the job
    row exists, the lookup does not fail and the stored claim is not a byte
    string, [Write] returns neither success nor an error: it panics at the
    type assertion, before the delete and the insert. *)
Theorem C9_claim_check_partial (job : Job) (s : bytes) (t : Txn) (key v : bytes) (d : Datum) :
  Session job = Some s ->
  stmt_fault (faults t) (SelectClaimSession (ID job)) = None ->
  jobs t !! ID job = Some d ->
  (forall b, d <> DBytes b) ->
  exists what t',
    Write (mkInfoStorage job (Some t)) key v
    = (Panic what, mkInfoStorage job (Some t'))
    /\ events t' = events t ++ [EvStmt (SelectClaimSession (ID job))]
    /\ infos t' = infos t.
Proof.
  intros Hs Hf Hrow Hd. unfold_txn. rewrite Hs. simpl. rewrite Hf, Hrow. simpl.
  destruct d as [b| | |]; [now destruct (Hd b) | ..];
    eexists _, _; repeat split; reflexivity.
Qed.

(** C9, on the example store: job 8 has a row whose claim is NULL. *)
Lemma C9_claim_check_partial_witness :
  exists what t',
    Write (mkInfoStorage ex_cleared (Some ex_txn)) (bytes_of_string "a/1") (bytes_of_string "v")
    = (Panic what, mkInfoStorage ex_cleared (Some t'))
    /\ events t' = events ex_txn ++ [EvStmt (SelectClaimSession 8)]
    /\ infos t' = infos ex_txn.
Proof.
  apply (C9_claim_check_partial ex_cleared ex_s1 ex_txn _ _ DNull);
    [reflexivity | reflexivity | reflexivity | discriminate].
Defined.

(** C7, as stated, fails: the error of a claim mismatch has no kind of its
    own.  On the example store, the error a stale session gets is of the same
    kind as the error of a write whose claim lookup the store failed, and as
    the error of a write through a handle without a transaction. *)
Lemma C7_mismatch_kind_counterexample :
  exists e_mismatch e_io e_no_txn,
    fst (Write (mkInfoStorage ex_stale (Some ex_txn)) (bytes_of_string "a/1") [])
    = Val (Some e_mismatch)
    /\ fst (Write (mkInfoStorage ex_owner (Some (begin_on ex_txn 100 ex_io_faults)))
              (bytes_of_string "a/1") [])
       = Val (Some e_io)
    /\ stmt_fault ex_io_faults (SelectClaimSession 7) = Some e_io
    /\ fst (Write (mkInfoStorage ex_stale None) (bytes_of_string "a/1") [])
       = Val (Some e_no_txn)
    /\ kind_of e_mismatch = kind_of e_io
    /\ kind_of e_mismatch = kind_of e_no_txn.
Proof. eexists _, _, _. repeat split; reflexivity. Qed.

(** C7, amended. On a handle with a session: a failure of the claim lookup
    is returned as the store gave it; a missing job row and a claim mismatch
    are each returned as a formatted error, with different formats, and both
    are plain errors, of no kind of their own.  On a handle without a
    session no claim error arises: [Write] returns what the delete and the
    insert return, whatever the jobs table holds. *)
Theorem C7_claim_errors (job : Job) (s : bytes) (t : Txn) (key v : bytes) :
  Session job = Some s ->
  let missing := Errorf "expected session %q for job ID %d but found none"
                   [ArgBytes s; ArgInt (ID job)] in
  let mismatch stored := Errorf "expected session %q but found %q"
                           [ArgBytes s; ArgBytes stored] in
  (forall e, stmt_fault (faults t) (SelectClaimSession (ID job)) = Some e ->
             fst (Write (mkInfoStorage job (Some t)) key v) = Val (Some e))
  /\ (stmt_fault (faults t) (SelectClaimSession (ID job)) = None ->
      jobs t !! ID job = None ->
      fst (Write (mkInfoStorage job (Some t)) key v) = Val (Some missing))
  /\ (forall stored,
        stmt_fault (faults t) (SelectClaimSession (ID job)) = None ->
        jobs t !! ID job = Some (DBytes stored) -> stored <> s ->
        fst (Write (mkInfoStorage job (Some t)) key v) = Val (Some (mismatch stored)))
  /\ kind_of missing = PlainError
  /\ (forall stored, kind_of (mismatch stored) = PlainError
                     /\ mismatch stored <> missing)
  /\ fst (Write (mkInfoStorage (mkJob (ID job) None) (Some t)) key v)
     = Val (match stmt_fault (faults t) (DeleteInfo (ID job) key) with
            | Some e => Some e
            | None => stmt_fault (faults t) (InsertInfo (ID job) key v)
            end).
Proof.
  intros Hs missing mismatch.
  split; [|split; [|split; [|split; [|split]]]].
  - intros e He. unfold_txn. now rewrite Hs, He.
  - intros Hf Hrow. unfold_txn. rewrite Hs. simpl. now rewrite Hf, Hrow.
  - intros stored Hf Hrow Hne. unfold_txn. rewrite Hs. simpl. rewrite Hf, Hrow. simpl.
    apply bytes_Equal_neq in Hne. now rewrite Hne.
  - reflexivity.
  - intros stored. split; [reflexivity | discriminate].
  - unfold_txn.
    destruct (stmt_fault (faults t) (DeleteInfo (ID job) key)); simpl;
      [|destruct (stmt_fault (faults t) (InsertInfo (ID job) key v))]; reflexivity.
Qed.

(** C7 amended, on the example store: the stale session's error. *)
Lemma C7_claim_errors_witness :
  fst (Write (mkInfoStorage ex_stale (Some ex_txn)) (bytes_of_string "a/1") [])
  = Val (Some (Errorf "expected session %q but found %q" [ArgBytes ex_s2; ArgBytes ex_s1])).
Proof.
  apply (C7_claim_errors ex_stale ex_s2 ex_txn (bytes_of_string "a/1") []);
    [reflexivity | reflexivity | reflexivity | discriminate].
Defined.

(** ** The legacy adapters *)

(** A lookup sees the rows of its key and the failures of the store, and
    nothing else of the transaction. *)
Lemma get_in_frame (job : Job) (key : bytes) (t1 t2 : Txn) :
  faults t1 = faults t2 ->
  List.filter (is_info (ID job) key) (infos t1)
  = List.filter (is_info (ID job) key) (infos t2) ->
  fst (get_in job key t1) = fst (get_in job key t2).
Proof.
  intros Hf Hr. unfold_txn. rewrite Hf, Hr.
  destruct (stmt_fault (faults t2) (SelectValue (ID job) key)); simpl;
    [reflexivity|].
  destruct (head _) as [r|]; simpl; [|reflexivity]. now destruct (value r).
Qed.

(** A write, whatever it returns, does not change what a lookup of another
    key returns. *)
Lemma write_get_other (i i' : InfoStorage) (key key' v : bytes) (r : outcome (option error)) :
  Write i key v = (r, i') -> key' <> key ->
  fst (Get i' key') = fst (Get i key').
Proof.
  unfold Write, Get, write, get, in_txn. destruct i as [job [t|]]; simpl.
  - destruct (write_in job key v t) as [r' t'] eqn:Hw. intros [= <- <-] Hne. simpl.
    apply write_in_frame in Hw as (Hrows & _ & _ & Hf).
    pose proof (get_in_frame job key' t' t Hf) as Hg.
    destruct (get_in job key' t'), (get_in job key' t). simpl in *. apply Hg.
    rewrite <- (filter_is_info_other _ key key' (infos t')),
      <- (filter_is_info_other _ key key' (infos t)) by assumption.
    now rewrite Hrows.
  - now intros [= <- <-].
Qed.

(** A successful write, then a lookup of the same key in the same
    transaction. *)
Lemma write_get_same (i i' : InfoStorage) (t : Txn) (key v : bytes) :
  txn i = Some t ->
  Write i key v = (Val None, i') ->
  stmt_fault (faults t) (SelectValue (ID (j i)) key) = None ->
  fst (Get i' key) = Val (v, true, None).
Proof.
  unfold Write, Get, write, get, in_txn. destruct i as [job tx]; simpl.
  intros ->. destruct (write_in job key v t) as [r' t'] eqn:Hw.
  intros [= -> <-] Hf. simpl.
  apply write_in_done in Hw as (Hinfos & _ & _ & Hfaults).
  pose proof (get_in_single job key t' (mkInfoRow (ID job) key (now t) (DBytes v))) as Hg.
  rewrite Hfaults, Hinfos, filter_is_info_replaced in Hg. specialize (Hg Hf eq_refl).
  now destruct (get_in job key t').
Qed.

Lemma legacy_keys_differ : GetLegacyPayloadKey <> GetLegacyProgressKey.
Proof. discriminate. Qed.

(** C8. The legacy adapters are [Write] and [Get] at two fixed keys, which
    differ.  A payload written without error is what [GetLegacyPayload] then
    returns, with [found = true], when the store does not fail the lookup;
    likewise for the progress.  Writing one of the two, whatever the write
    returns, changes neither what a lookup of any other key returns (the
    other legacy key among them) nor the rows stored under other jobs and
    keys. *)
Theorem C8_legacy_adapters (i : InfoStorage) (t : Txn) (p : bytes) :
  txn i = Some t ->
  (forall i',
      WriteLegacyPayload i p = (Val None, i') ->
      stmt_fault (faults t) (SelectValue (ID (j i)) GetLegacyPayloadKey) = None ->
      fst (GetLegacyPayload i') = Val (p, true, None))
  /\ (forall i',
        WriteLegacyProgress i p = (Val None, i') ->
        stmt_fault (faults t) (SelectValue (ID (j i)) GetLegacyProgressKey) = None ->
        fst (GetLegacyProgress i') = Val (p, true, None))
  /\ (WriteLegacyPayload i p = Write i GetLegacyPayloadKey p
      /\ WriteLegacyProgress i p = Write i GetLegacyProgressKey p
      /\ GetLegacyPayload i = Get i GetLegacyPayloadKey
      /\ GetLegacyProgress i = Get i GetLegacyProgressKey
      /\ GetLegacyPayloadKey = bytes_of_string "legacy_payload"
      /\ GetLegacyProgressKey = bytes_of_string "legacy_progress"
      /\ GetLegacyPayloadKey <> GetLegacyProgressKey)
  /\ (forall r i' t',
        WriteLegacyPayload i p = (r, i') -> txn i' = Some t' ->
        fst (GetLegacyProgress i') = fst (GetLegacyProgress i)
        /\ (forall key, key <> GetLegacyPayloadKey -> fst (Get i' key) = fst (Get i key))
        /\ List.filter (fun x => negb (is_info (ID (j i)) GetLegacyPayloadKey x)) (infos t')
           = List.filter (fun x => negb (is_info (ID (j i)) GetLegacyPayloadKey x)) (infos t))
  /\ (forall r i' t',
        WriteLegacyProgress i p = (r, i') -> txn i' = Some t' ->
        fst (GetLegacyPayload i') = fst (GetLegacyPayload i)
        /\ (forall key, key <> GetLegacyProgressKey -> fst (Get i' key) = fst (Get i key))
        /\ List.filter (fun x => negb (is_info (ID (j i)) GetLegacyProgressKey x)) (infos t')
           = List.filter (fun x => negb (is_info (ID (j i)) GetLegacyProgressKey x)) (infos t)).
Proof.
  intros Ht.
  assert (Hrows : forall key r i' t',
             Write i key p = (r, i') -> txn i' = Some t' ->
             List.filter (fun x => negb (is_info (ID (j i)) key x)) (infos t')
             = List.filter (fun x => negb (is_info (ID (j i)) key x)) (infos t)).
  { intros key r i' t'. unfold Write, write, in_txn. rewrite Ht.
    destruct (write_in (j i) key p t) as [r' t1] eqn:Hw. intros [= <- <-]. simpl.
    intros [= <-]. now apply write_in_frame in Hw as (Hrows & _). }
  split; [|split; [|split; [|split]]].
  - intros i' Hw Hf. exact (write_get_same i i' t _ p Ht Hw Hf).
  - intros i' Hw Hf. exact (write_get_same i i' t _ p Ht Hw Hf).
  - repeat split. exact legacy_keys_differ.
  - intros r i' t' Hw Ht'. split; [|split].
    + apply (write_get_other i i' _ _ p r Hw). intros E. symmetry in E.
      now apply legacy_keys_differ.
    + intros key Hne. exact (write_get_other i i' _ key p r Hw Hne).
    + exact (Hrows _ r i' t' Hw Ht').
  - intros r i' t' Hw Ht'. split; [|split].
    + apply (write_get_other i i' _ _ p r Hw). exact legacy_keys_differ.
    + intros key Hne. exact (write_get_other i i' _ key p r Hw Hne).
    + exact (Hrows _ r i' t' Hw Ht').
Qed.

(** C8, on the example store: the owner writes a payload and reads it back,
    and the progress is as it was. *)
Lemma C8_legacy_adapters_witness :
  exists i',
    WriteLegacyPayload (mkInfoStorage ex_owner (Some ex_txn)) (bytes_of_string "payload")
    = (Val None, i')
    /\ fst (GetLegacyPayload i') = Val (bytes_of_string "payload", true, None)
    /\ fst (GetLegacyProgress i')
       = fst (GetLegacyProgress (mkInfoStorage ex_owner (Some ex_txn))).
Proof.
  pose proof (C8_legacy_adapters (mkInfoStorage ex_owner (Some ex_txn)) ex_txn
                (bytes_of_string "payload") eq_refl) as (Hpay & _ & _ & Hother & _).
  eexists. split; [reflexivity|]. split.
  - apply Hpay; reflexivity.
  - exact (proj1 (Hother _ _ _ eq_refl eq_refl)).
Defined.

(** ** The scan *)

Lemma sorted_key_leb (x y : InfoRow) :
  key_asc_written_desc x y = true -> bytes_leb (info_key x) (info_key y) = true.
Proof.
  unfold key_asc_written_desc.
  destruct (bytes_Equal (info_key x) (info_key y)) eqn:E; [|easy].
  apply bytes_Equal_eq in E. rewrite E. intros _. apply bytes_leb_refl.
Qed.

Lemma sorted_same_key_written (x y : InfoRow) :
  key_asc_written_desc x y = true -> info_key x = info_key y ->
  written y <= written x.
Proof.
  unfold key_asc_written_desc. intros H E.
  apply bytes_Equal_eq in E. rewrite E in H. now apply Z.leb_le.
Qed.

Lemma bytes_ltb_intro (a b : bytes) :
  bytes_leb a b = true -> a <> b -> bytes_ltb a b = true.
Proof.
  intros Hle Hne. unfold bytes_ltb. rewrite Hle. simpl.
  apply bytes_Equal_neq in Hne. now rewrite Hne.
Qed.

Lemma bytes_ltb_neq (a b : bytes) : bytes_ltb a b = true -> a <> b.
Proof.
  unfold bytes_ltb. intros [_ H]%andb_true_iff. apply negb_true_iff in H.
  now apply bytes_Equal_neq.
Qed.

Lemma bytes_ltb_trans (a b c : bytes) :
  bytes_ltb a b = true -> bytes_ltb b c = true -> bytes_ltb a c = true.
Proof.
  intros Hab Hbc. pose proof (bytes_ltb_neq _ _ Hab) as Nab.
  unfold bytes_ltb in Hab, Hbc.
  apply andb_true_iff in Hab as [Hab _], Hbc as [Hbc _].
  apply bytes_ltb_intro; [eapply bytes_leb_trans; eauto|].
  intros ->. apply Nab. now apply bytes_leb_antisym.
Qed.

Lemma good_visits_nil (l : list InfoRow) : good_visits l [].
Proof. split; constructor. Qed.

Section ScanFacts.
Context {S : Type} (fn : S -> bytes -> bytes -> S * option error).

Lemma loop_inv_init (l : list InfoRow) (s : S) : loop_inv l [] (mkLoop [] s []).
Proof.
  split; simpl; [constructor | now left | constructor | apply good_visits_nil].
Qed.

(** A row whose key is the previous key: the loop skips it. *)
Lemma loop_inv_skip (l l0 : list InfoRow) (r : InfoRow) (st : loop_state S) :
  loop_inv l l0 st ->
  bytes_Equal (info_key r) (prevKey st) = true ->
  loop_inv l (l0 ++ [r]) st.
Proof.
  intros [Hseen Hprev Hcalls Hgood] E. apply bytes_Equal_eq in E. split.
  - apply Forall_app. split; [exact Hseen|]. constructor; [|constructor].
    rewrite E. apply bytes_leb_refl.
  - destruct Hprev as [Hprev | (x & Hx & Hk)]; [now left|].
    right. exists x. split; [apply in_or_app; now left | exact Hk].
  - exact Hcalls.
  - exact Hgood.
Qed.

(** The previous key is below the key of every row still to come. *)
Lemma loop_inv_prev_leb (l0 rest : list InfoRow) (r : InfoRow) (st : loop_state S) :
  StronglySorted (fun a b => key_asc_written_desc a b = true) (l0 ++ r :: rest) ->
  loop_inv (l0 ++ r :: rest) l0 st ->
  bytes_leb (prevKey st) (info_key r) = true.
Proof.
  intros Hs [_ Hprev _ _].
  destruct Hprev as [-> | (x & Hx & <-)]; [reflexivity|].
  apply sorted_key_leb.
  apply (StronglySorted_app_1_elem_of _ _ _ _ _ Hs);
    apply list_elem_of_In; [exact Hx | now left].
Qed.

(** A row with a new key and a byte-string value: the loop visits it. *)
Lemma loop_inv_visit (l0 rest : list InfoRow) (r : InfoRow) (st : loop_state S)
  (v : bytes) (s' : S) :
  StronglySorted (fun a b => key_asc_written_desc a b = true) (l0 ++ r :: rest) ->
  loop_inv (l0 ++ r :: rest) l0 st ->
  bytes_Equal (info_key r) (prevKey st) = false ->
  value r = DBytes v ->
  loop_inv (l0 ++ r :: rest) (l0 ++ [r])
    (mkLoop (info_key r) s' (calls st ++ [(info_key r, v)])).
Proof.
  intros Hs Hinv E Hv.
  pose proof (loop_inv_prev_leb _ _ _ _ Hs Hinv) as Hle.
  destruct Hinv as [Hseen Hprev Hcalls [Hasc Hnew Hne]].
  apply bytes_Equal_neq in E.
  assert (Hbefore : forall x, In x l0 -> info_key x <> info_key r).
  { intros x Hx Hk. rewrite List.Forall_forall in Hseen.
    specialize (Hseen x Hx). rewrite Hk in Hseen.
    apply E. now apply bytes_leb_antisym. }
  assert (Hafter : forall y, In y rest -> key_asc_written_desc r y = true).
  { intros y Hy. apply StronglySorted_app_1_r in Hs.
    apply StronglySorted_cons in Hs as [Hall _].
    rewrite List.Forall_forall in Hall. now apply Hall. }
  split; simpl.
  - apply Forall_app. split; [|constructor; [apply bytes_leb_refl | constructor]].
    rewrite List.Forall_forall. intros x Hx. apply sorted_key_leb.
    apply (StronglySorted_app_1_elem_of _ _ _ _ _ Hs);
      apply list_elem_of_In; [exact Hx | now left].
  - right. exists r. split; [apply in_or_app; right; now left | reflexivity].
  - apply Forall_app. split; [|constructor; [apply bytes_leb_refl | constructor]].
    eapply List.Forall_impl; [|exact Hcalls]. simpl. intros c Hc.
    eapply bytes_leb_trans; eauto.
  - split.
    + rewrite map_app. simpl. apply StronglySorted_app_2.
      * intros k1 k2 Hk1 Hk2. apply list_elem_of_In in Hk1, Hk2.
        destruct Hk2 as [<-|[]]. apply in_map_iff in Hk1 as (c & <- & Hc).
        rewrite List.Forall_forall in Hcalls. specialize (Hcalls c Hc).
        apply bytes_ltb_intro; [eapply bytes_leb_trans; eauto|].
        intros Hk. rewrite Hk in Hcalls. apply E. now apply bytes_leb_antisym.
      * exact Hasc.
      * repeat constructor.
    + apply Forall_app. split; [exact Hnew|]. constructor; [|constructor].
      exists r. simpl. split; [apply in_or_app; right; now left|].
      split; [reflexivity|]. split; [exact Hv|].
      intros r' Hr' Hk. apply in_app_or in Hr' as [Hr'|[<-|Hr']].
      * now destruct (Hbefore r' Hr').
      * lia.
      * apply sorted_same_key_written; [now apply Hafter | now symmetry].
    + apply Forall_app. split; [exact Hne|]. constructor; [|constructor].
      simpl. intros Hk. apply E. rewrite Hk in Hle |- *.
      symmetry. now apply bytes_leb_nil_r.
Qed.
End ScanFacts.

Section ScanTheorems.
Context {S : Type} (fn : S -> bytes -> bytes -> S * option error).

(** The loop over sorted rows, cut short or not by a failing [Next]. *)
Lemma loop_sorted_good (tail : list next_result) :
  no_row_ahead tail ->
  forall (l1 l0 l2 : list InfoRow) (st : loop_state S),
    StronglySorted (fun a b => key_asc_written_desc a b = true) (l0 ++ l1 ++ l2) ->
    loop_inv (l0 ++ l1 ++ l2) l0 st ->
    good_visits (l0 ++ l1 ++ l2)
      (calls (snd (fst (loop fn (map NextRow (map result_row l1) ++ tail) st)))).
Proof.
  intros Htail. induction l1 as [|r l1 IH]; intros l0 l2 st Hs Hinv.
  - simpl. destruct tail as [|[row|[] e] tail']; simpl;
      solve [apply Hinv | contradiction].
  - simpl. unfold loop_body. simpl.
    assert (Hnext : forall st', loop_inv (l0 ++ (r :: l1) ++ l2) (l0 ++ [r]) st' ->
              good_visits (l0 ++ (r :: l1) ++ l2)
                (calls (snd (fst (loop fn (map NextRow (map result_row l1) ++ tail) st'))))).
    { intros st' Hinv'. specialize (IH (l0 ++ [r]) l2 st').
      rewrite <- app_assoc in IH. simpl in IH. apply IH; assumption. }
    destruct (bytes_Equal (info_key r) (prevKey st)) eqn:E.
    + apply Hnext. now apply loop_inv_skip.
    + destruct (value r) as [v| | |] eqn:Ev; simpl; try apply Hinv.
      pose proof (fun s' => loop_inv_visit l0 (l1 ++ l2) r st v s' Hs Hinv E Ev) as Hvisit.
      destruct (fn (fn_state st) (info_key r) v) as [s' [e|]]; simpl.
      * exact (li_good _ _ _ (Hvisit s')).
      * apply Hnext, Hvisit.
Qed.

Lemma iterate_in_good (job : Job) (infoPrefix : bytes) (s : S) (t : Txn) :
  forall res t',
    iterate_in fn job infoPrefix s t = (Val res, t') ->
    good_visits (scanned job infoPrefix t) (visits res).
Proof.
  intros res t'. unfold iterate_in, select_info_iter, bind, ret. simpl.
  destruct (stmt_fault _ _) as [e|]; simpl.
  { intros [= <- _]. apply good_visits_nil. }
  fold (scanned job infoPrefix t). set (rows := scanned job infoPrefix t).
  assert (Hs : StronglySorted (fun a b => key_asc_written_desc a b = true) rows).
  { apply order_by_sorted;
      [apply key_asc_written_desc_total | apply key_asc_written_desc_trans]. }
  unfold iterate_rows. simpl.
  assert (Hgood : good_visits rows
            (calls (snd (fst (loop fn (stream_of (map result_row rows)
                                         (next_fault (faults t)))
                                (mkLoop [] s [])))))).
  { unfold stream_of. destruct (next_fault (faults t)) as [[[n ok] e]|].
    - rewrite firstn_map.
      pose proof (loop_sorted_good [NextErr ok e] I (firstn n rows) []
                    (skipn n rows) (mkLoop [] s [])) as H.
      simpl in H. rewrite firstn_skipn in H. apply H; [exact Hs|].
      apply loop_inv_init.
    - pose proof (loop_sorted_good [] I rows [] [] (mkLoop [] s [])) as H.
      simpl in H. rewrite !app_nil_r in H. apply H; [exact Hs|].
      apply loop_inv_init. }
  destruct (loop fn _ _) as [[err st] rest]. simpl in Hgood.
  now intros [= <- _].
Qed.

(** From the rows selected back to the table. *)
Lemma newest_of_scanned (job : Job) (infoPrefix : bytes) (t : Txn) (k v : bytes) :
  newest_of (scanned job infoPrefix t) k v ->
  firstn (length infoPrefix) k = infoPrefix
  /\ exists ts,
      In (mkInfoRow (ID job) k ts (DBytes v)) (infos t)
      /\ forall r', In r' (infos t) -> job_id r' = ID job -> info_key r' = k ->
                    written r' <= ts.
Proof.
  intros (r & Hr & Hk & Hv & Hmax). unfold scanned in *.
  apply order_by_In, filter_In in Hr as [Hr Hp].
  unfold under_prefix in Hp. apply andb_true_iff in Hp as [Hid Hp].
  apply Z.eqb_eq in Hid. apply bytes_Equal_eq in Hp. subst k.
  split; [exact Hp|]. exists (written r). split.
  - destruct r as [id k ts d]. simpl in *. now subst.
  - intros r' Hr' Hid' Hk'. apply Hmax; [|exact Hk'].
    apply order_by_In, filter_In. split; [exact Hr'|].
    unfold under_prefix. rewrite Hk', Hid', Z.eqb_refl, Hp. simpl.
    apply bytes_Equal_refl.
Qed.
End ScanTheorems.

Lemma strictly_ascending_NoDup (ks : list bytes) :
  StronglySorted (fun a b => bytes_ltb a b = true) ks -> List.NoDup ks.
Proof.
  induction 1 as [|k ks Hs IH Hall]; constructor; [|exact IH].
  intros Hin. rewrite List.Forall_forall in Hall.
  now apply (bytes_ltb_neq k k (Hall k Hin)).
Qed.

Section IterateTheorems.
Context {S : Type} (fn : S -> bytes -> bytes -> S * option error).

(** What [Iterate] visits, in terms of the rows its query selects. *)
Lemma Iterate_good (i i' : InfoStorage) (infoPrefix : bytes) (s : S) (t : Txn)
  (res : iter_result S) :
  txn i = Some t ->
  Iterate fn i infoPrefix s = (Val res, i') ->
  good_visits (scanned (j i) infoPrefix t) (visits res).
Proof.
  unfold Iterate, iterate, in_txn. intros ->.
  destruct (iterate_in fn (j i) infoPrefix s t) as [r t'] eqn:Hi.
  intros [= -> _]. exact (iterate_in_good fn _ _ _ _ _ _ Hi).
Qed.

(** C3. De-duplication and order of [Iterate]: the query selects the rows of
    the job under the prefix and hands them over by ascending key and, within
    a key, by descending write time; the loop skips a row whose key is the
    previous key; so the visitor is called with keys in strictly ascending
    order, hence at most once per key, each key under the prefix, each time
    with the value of a row of that key that none was written after. *)
Theorem C3_iterate_dedup_order (i i' : InfoStorage) (infoPrefix : bytes) (s : S)
  (t : Txn) (res : iter_result S) :
  txn i = Some t ->
  Iterate fn i infoPrefix s = (Val res, i') ->
  (Permutation (scanned (j i) infoPrefix t)
     (List.filter (under_prefix (ID (j i)) (length infoPrefix) infoPrefix) (infos t))
   /\ StronglySorted (fun a b => key_asc_written_desc a b = true)
        (scanned (j i) infoPrefix t))
  /\ (forall k d st, bytes_Equal k (prevKey st) = true ->
                     loop_body fn (DBytes k, d) st = Continue st)
  /\ StronglySorted (fun a b => bytes_ltb a b = true) (map fst (visits res))
  /\ List.NoDup (map fst (visits res))
  /\ (forall k v,
        In (k, v) (visits res) ->
        firstn (length infoPrefix) k = infoPrefix
        /\ exists ts,
            In (mkInfoRow (ID (j i)) k ts (DBytes v)) (infos t)
            /\ forall r', In r' (infos t) -> job_id r' = ID (j i) -> info_key r' = k ->
                          written r' <= ts).
Proof.
  intros Ht Hi. pose proof (Iterate_good i i' infoPrefix s t res Ht Hi) as [Hasc Hnew _].
  split; [split|split; [|split; [|split]]].
  - apply order_by_perm.
  - apply order_by_sorted;
      [apply key_asc_written_desc_total | apply key_asc_written_desc_trans].
  - intros k d st E. unfold loop_body. simpl. now rewrite E.
  - exact Hasc.
  - now apply strictly_ascending_NoDup.
  - intros k v Hin. rewrite List.Forall_forall in Hnew.
    exact (newest_of_scanned _ _ _ _ _ (Hnew _ Hin)).
Qed.

(** C10. A record under the empty key is never visited: a row with the empty
    key met with the empty previous key, which is how the loop starts, is
    skipped, and no call of the visitor made by [Iterate] has the empty key,
    whatever the table holds under it. *)
Theorem C10_empty_key_never_visited (i i' : InfoStorage) (infoPrefix : bytes) (s : S)
  (res : iter_result S) :
  Iterate fn i infoPrefix s = (Val res, i') ->
  (forall d, loop_body fn (DBytes [], d) (mkLoop [] s []) = Continue (mkLoop [] s []))
  /\ forall v, ~ In ([], v) (visits res).
Proof.
  intros Hi. split; [reflexivity|]. intros v Hin.
  destruct (txn i) as [t|] eqn:Ht.
  - pose proof (Iterate_good i i' infoPrefix s t res Ht Hi) as [_ _ Hne].
    rewrite List.Forall_forall in Hne. now apply (Hne _ Hin).
  - unfold Iterate, iterate, in_txn in Hi. rewrite Ht in Hi.
    injection Hi as <- _. exact Hin.
Qed.
End IterateTheorems.

(** C3, on the example store: the scan of job 7 under ["a/"], with a visitor
    that never fails. *)
Lemma C3_iterate_dedup_order_witness :
  exists res i',
    Iterate (ex_fail_on [] ex_io_error) (mkInfoStorage ex_owner (Some ex_txn))
      (bytes_of_string "a/") O = (Val res, i')
    /\ visits res = [(bytes_of_string "a/1", bytes_of_string "a1-new");
                     (bytes_of_string "a/2", bytes_of_string "a2-new")]
    /\ List.NoDup (map fst (visits res)).
Proof.
  eexists _, _. split; [reflexivity|]. split; [reflexivity|].
  eapply (C3_iterate_dedup_order (ex_fail_on [] ex_io_error)
            (mkInfoStorage ex_owner (Some ex_txn)) _ (bytes_of_string "a/") O ex_txn);
    reflexivity.
Defined.

(** C10, on the example store: job 7 has a row under the empty key, which the
    scan of everything selects first and does not visit. *)
Lemma C10_empty_key_never_visited_witness :
  exists res i',
    Iterate (ex_fail_on [] ex_io_error) (mkInfoStorage ex_owner (Some ex_txn)) [] O
    = (Val res, i')
    /\ head (scanned ex_owner [] ex_txn) = Some (ex_row 7 "" 4 "empty")
    /\ map fst (visits res)
       = [bytes_of_string "a/1"; bytes_of_string "a/2"; bytes_of_string "b/1"]
    /\ forall v, ~ In ([], v) (visits res).
Proof.
  eexists _, _. split; [reflexivity|]. split; [reflexivity|]. split; [reflexivity|].
  eapply (C10_empty_key_never_visited (ex_fail_on [] ex_io_error)
            (mkInfoStorage ex_owner (Some ex_txn)) _ [] O).
  reflexivity.
Defined.

(** C5, on the example store: a key without rows, and the key whose row
    holds NULL. *)
Lemma C5_get_result_taxonomy_witness :
  fst (Get (mkInfoStorage ex_owner (Some ex_txn)) (bytes_of_string "unused"))
  = Val ([], false, None)
  /\ exists e,
      fst (Get (mkInfoStorage ex_owner (Some ex_txn)) (bytes_of_string "c/bad"))
      = Val ([], false, Some e)
      /\ kind_of e = AssertionFailure.
Proof.
  split.
  - apply (C5_get_result_taxonomy ex_owner ex_txn (bytes_of_string "unused")
             eq_refl); reflexivity.
  - apply (proj2 (C5_get_result_taxonomy ex_owner ex_txn (bytes_of_string "c/bad")
                    eq_refl) (mkInfoRow 7 (bytes_of_string "c/bad") 9 DNull));
      [reflexivity | discriminate].
Defined.

(** ** Leaving the loop *)

Section AbortTheorems.
Context {S : Type} (fn : S -> bytes -> bytes -> S * option error).

(** The body leaves the loop with an error only. *)
Lemma loop_body_Return_error (row : Datum * Datum) (st st' : loop_state S)
  (err : option error) :
  loop_body fn row st = Return err st' -> err <> None.
Proof.
  unfold loop_body. destruct (fst row); try (intros [= <- _]; discriminate).
  destruct (bytes_Equal _ _); [discriminate|].
  destruct (snd row); try (intros [= <- _]; discriminate).
  destruct (fn _ _ _) as [s' [e|]]; [intros [= <- _]|]; discriminate.
Qed.

(** A loop that ran through [pre] without an error goes on with the rest. *)
Lemma loop_app (pre rest : list next_result) (st0 st : loop_state S) :
  loop fn pre st0 = (None, st, []) ->
  loop fn (pre ++ rest) st0 = loop fn rest st.
Proof.
  revert st0. induction pre as [|[row|[] e] pre IH]; intros st0; simpl;
    try discriminate.
  - now intros [= ->].
  - destruct (loop_body fn row st0) as [st1|err st1] eqn:Hb; [apply IH|].
    apply loop_body_Return_error in Hb. intros [= -> _ _]. now destruct Hb.
Qed.

(** Every call of [iterate_rows] closes its cursor. *)
Lemma iterate_rows_closed (rows : Rows) (s : S) :
  exists r, cursor (iterate_rows fn rows s) = Some r /\ closed r = true.
Proof.
  unfold iterate_rows. destruct (loop fn _ _) as [[err st] rest]. simpl.
  eexists. split; reflexivity.
Qed.

(** C6. A failing visit ends the scan: when the loop has run through the
    calls of [Next] before a row without leaving, that row has a new key and
    byte-string columns, and the visitor fails on it, [iterate] returns the
    visitor's error (with the error of [Close] as its secondary error when
    [Close] fails too), the calls made are those made before followed by the
    failing one, and the calls of [Next] after that row are left in the
    cursor, unmade.  The cursor is closed on this and every other way out of
    the loop; [Iterate] leaves no cursor only when it opened none, having no
    transaction or a failed query. *)
Theorem C6_visitor_error_abort (rows : Rows) (s : S) (pre post : list next_result)
  (k v : bytes) (st : loop_state S) (s' : S) (e : error) :
  pending rows = pre ++ NextRow (DBytes k, DBytes v) :: post ->
  loop fn pre (mkLoop [] s []) = (None, st, []) ->
  bytes_Equal k (prevKey st) = false ->
  fn (fn_state st) k v = (s', Some e) ->
  iterate_rows fn rows s
  = mkIter (CombineErrors (Some e) (close_err rows)) s' (calls st ++ [(k, v)])
      (Some (mkRows post (close_err rows) true))
  /\ (exists e', retErr (iterate_rows fn rows s) = Some e' /\ primary e' = primary e)
  /\ (close_err rows = None -> retErr (iterate_rows fn rows s) = Some e)
  /\ (forall rows0 s0,
        exists r, cursor (iterate_rows fn rows0 s0) = Some r /\ closed r = true)
  /\ (forall i i' infoPrefix s0 res,
        Iterate fn i infoPrefix s0 = (Val res, i') ->
        match cursor res with
        | Some r => closed r = true
        | None =>
            txn i = None
            \/ exists t, txn i = Some t
                         /\ stmt_fault (faults t)
                              (SelectInfoIter (ID (j i)) (length infoPrefix) infoPrefix)
                            <> None
        end).
Proof.
  intros Hp Hpre E Hfn.
  assert (Hres : iterate_rows fn rows s
                 = mkIter (CombineErrors (Some e) (close_err rows)) s'
                     (calls st ++ [(k, v)]) (Some (mkRows post (close_err rows) true))).
  { unfold iterate_rows. rewrite Hp, (loop_app _ _ _ _ Hpre). simpl.
    unfold loop_body. simpl. rewrite E, Hfn. reflexivity. }
  split; [exact Hres|]. rewrite Hres. simpl.
  split; [|split; [|split]].
  - destruct (close_err rows); eexists; split; reflexivity.
  - now intros ->.
  - apply iterate_rows_closed.
  - intros i i' infoPrefix s0 res. unfold Iterate, iterate, in_txn.
    destruct (txn i) as [t|]; [|intros [= <- _]; now left].
    unfold iterate_in, select_info_iter, bind, ret. simpl.
    destruct (stmt_fault _ _) as [e0|] eqn:Hf; simpl.
    + intros [= <- _]. simpl. right. exists t. split; [reflexivity|].
      now rewrite Hf.
    + intros [= <- _].
      destruct (iterate_rows_closed
                  (mkRows (stream_of (map result_row (scanned (j i) infoPrefix t))
                             (next_fault (faults t)))
                     (close_fault (faults t)) false) s0) as (r & Hr & Hc).
      unfold scanned in Hr. now rewrite Hr.
Qed.
End AbortTheorems.

(** C6, on the example store: the visitor fails on ["a/2"], after the row of
    the empty key, the two rows of ["a/1"] and before the second row of
    ["a/2"] and all the rows of ["b/1"] and ["c/bad"]; [Close] fails too. *)
Lemma C6_visitor_error_abort_witness :
  iterate_rows (ex_fail_on (bytes_of_string "a/2") ex_visit_error) ex_rows O
  = mkIter (Some (WithSecondary ex_visit_error ex_close_error)) 2%nat
      [(bytes_of_string "a/1", bytes_of_string "a1-new");
       (bytes_of_string "a/2", bytes_of_string "a2-new")]
      (Some (mkRows
               (map NextRow
                  (map result_row
                     [ex_row 7 "a/2" 2 "a2-old"; ex_row 7 "b/1" 7 "b-new";
                      ex_row 7 "b/1" 1 "b-old";
                      mkInfoRow 7 (bytes_of_string "c/bad") 9 DNull]))
               (Some ex_close_error) true)).
Proof.
  apply (C6_visitor_error_abort (ex_fail_on (bytes_of_string "a/2") ex_visit_error)
           ex_rows O
           (map NextRow
              (map result_row
                 [ex_row 7 "" 4 "empty"; ex_row 7 "a/1" 5 "a1-new";
                  ex_row 7 "a/1" 3 "a1-old"]))
           _ (bytes_of_string "a/2") (bytes_of_string "a2-new")
           (mkLoop (bytes_of_string "a/1") 1%nat
              [(bytes_of_string "a/1", bytes_of_string "a1-new")])
           2%nat ex_visit_error);
    reflexivity.
Defined.

(** * Further properties of the handle *)

(** ** Failures of the store inside [write] *)

(** X1. When the claim step of [Write] passes (no session on the handle, or
    a stored claim equal to the session) and the store then fails a
    statement, [Write] returns the store's error as it is.  If the delete
    fails, the insert is not issued and the table is as it was.  If the
    delete succeeds and the insert fails, every revision of the key is gone
    from the transaction's view, the other rows are kept, and a [Get] of the
    key in the same transaction finds nothing: undoing the delete is left to
    the caller's rollback. *)
Theorem X1_write_store_failure (job : Job) (t : Txn) (key v : bytes) (e : error) :
  (Session job = None
   \/ exists s, Session job = Some s
                /\ jobs t !! ID job = Some (DBytes s)
                /\ stmt_fault (faults t) (SelectClaimSession (ID job)) = None) ->
  (stmt_fault (faults t) (DeleteInfo (ID job) key) = Some e ->
   exists t',
     Write (Job_InfoStorage job (Some t)) key v
     = (Val (Some e), Job_InfoStorage job (Some t'))
     /\ infos t' = infos t
     /\ last (events t') = Some (EvStmt (DeleteInfo (ID job) key)))
  /\ (stmt_fault (faults t) (DeleteInfo (ID job) key) = None ->
      stmt_fault (faults t) (InsertInfo (ID job) key v) = Some e ->
      exists t',
        Write (Job_InfoStorage job (Some t)) key v
        = (Val (Some e), Job_InfoStorage job (Some t'))
        /\ infos t' = List.filter (fun r => negb (is_info (ID job) key r)) (infos t)
        /\ List.filter (is_info (ID job) key) (infos t') = []
        /\ (stmt_fault (faults t) (SelectValue (ID job) key) = None ->
            fst (Get (Job_InfoStorage job (Some t')) key) = Val ([], false, None))).
Proof.
  intros Hclaim.
  assert (Hgone : forall l : list InfoRow,
             List.filter (is_info (ID job) key)
               (List.filter (fun r => negb (is_info (ID job) key r)) l) = []).
  { induction l as [|r l IH]; simpl; [reflexivity|].
    destruct (is_info (ID job) key r) eqn:E; simpl; [exact IH|]. now rewrite E. }
  split.
  - intros Hd. unfold Job_InfoStorage. unfold_txn.
    destruct Hclaim as [-> | (s & -> & Hrow & Hf)]; simpl.
    + rewrite Hd. simpl. eexists. split; [reflexivity|]. split; [reflexivity|].
      simpl. now rewrite last_snoc.
    + rewrite Hf, Hrow. simpl. rewrite bytes_Equal_refl. simpl. rewrite Hd. simpl.
      eexists. split; [reflexivity|]. split; [reflexivity|].
      simpl. now rewrite last_snoc.
  - intros Hd Hi. unfold Job_InfoStorage. unfold_txn.
    destruct Hclaim as [-> | (s & -> & Hrow & Hf)]; simpl.
    + rewrite Hd. simpl. rewrite Hi. simpl.
      eexists. split; [reflexivity|]. simpl. split; [reflexivity|].
      split; [apply Hgone|]. intros Hg. now rewrite Hg, Hgone.
    + rewrite Hf, Hrow. simpl. rewrite bytes_Equal_refl. simpl. rewrite Hd. simpl.
      rewrite Hi. simpl.
      eexists. split; [reflexivity|]. simpl. split; [reflexivity|].
      split; [apply Hgone|]. intros Hg. now rewrite Hg, Hgone.
Qed.

(** X1, on the example store, under a store that fails the insert: the
    owner's write loses both revisions of ["a/1"]. *)
Lemma X1_write_store_failure_witness :
  exists t',
    Write (Job_InfoStorage ex_owner (Some (begin_on ex_txn 100 ex_insert_faults)))
      (bytes_of_string "a/1") (bytes_of_string "v")
    = (Val (Some ex_insert_error), Job_InfoStorage ex_owner (Some t'))
    /\ fst (Get (Job_InfoStorage ex_owner (Some t')) (bytes_of_string "a/1"))
       = Val ([], false, None).
Proof.
  destruct (proj2 (X1_write_store_failure ex_owner (begin_on ex_txn 100 ex_insert_faults)
                     (bytes_of_string "a/1") (bytes_of_string "v") ex_insert_error
                     (or_intror (ex_intro _ ex_s1 (conj eq_refl (conj eq_refl eq_refl)))))
              eq_refl eq_refl) as (t' & Hw & _ & _ & Hg).
  exists t'. split; [exact Hw | exact (Hg eq_refl)].
Defined.

(** ** Fencing is sound *)

(** X2. On a handle with a session, unless the claim lookup succeeds and the
    stored claim is a byte string equal to the session, [Write] neither
    returns success nor touches [system.job_info]: whatever it does (an
    error, or a panic on a claim that is not a byte string), the only
    statement it has issued is the lookup. *)
Theorem X2_write_needs_claim (job : Job) (s : bytes) (t : Txn) (key v : bytes) :
  Session job = Some s ->
  (stmt_fault (faults t) (SelectClaimSession (ID job)) <> None
   \/ jobs t !! ID job <> Some (DBytes s)) ->
  exists r t',
    Write (Job_InfoStorage job (Some t)) key v = (r, Job_InfoStorage job (Some t'))
    /\ r <> Val None
    /\ infos t' = infos t /\ jobs t' = jobs t
    /\ events t' = events t ++ [EvStmt (SelectClaimSession (ID job))].
Proof.
  intros Hs Hno. unfold Job_InfoStorage. unfold_txn. rewrite Hs. simpl.
  destruct (stmt_fault (faults t) (SelectClaimSession (ID job))) as [e|]; simpl.
  { eexists _, _. repeat split; [discriminate]. }
  destruct Hno as [Hno | Hno]; [now destruct Hno|].
  destruct (jobs t !! ID job) as [[stored| | |]|]; simpl;
    try (eexists _, _; repeat split; discriminate).
  destruct (bytes_Equal stored s) eqn:E; simpl.
  - apply bytes_Equal_eq in E. subst stored. now destruct Hno.
  - eexists _, _. repeat split; discriminate.
Qed.

(** X2, on the example store: the stale session, the cleared claim and the
    missing job. *)
Lemma X2_write_needs_claim_witness :
  (exists r t',
      Write (Job_InfoStorage ex_stale (Some ex_txn)) [] [] = (r, Job_InfoStorage ex_stale (Some t'))
      /\ r <> Val None /\ infos t' = infos ex_txn /\ jobs t' = jobs ex_txn
      /\ events t' = events ex_txn ++ [EvStmt (SelectClaimSession 7)])
  /\ (exists r t',
        Write (Job_InfoStorage ex_cleared (Some ex_txn)) [] []
        = (r, Job_InfoStorage ex_cleared (Some t'))
        /\ r <> Val None /\ infos t' = infos ex_txn /\ jobs t' = jobs ex_txn
        /\ events t' = events ex_txn ++ [EvStmt (SelectClaimSession 8)]).
Proof.
  split.
  - apply (X2_write_needs_claim ex_stale ex_s2 ex_txn [] [] eq_refl).
    right. discriminate.
  - apply (X2_write_needs_claim ex_cleared ex_s1 ex_txn [] [] eq_refl).
    right. discriminate.
Defined.

(** ** Reading *)

(** What [get] leaves of the transaction. *)
Lemma get_in_readonly (job : Job) (key : bytes) (t : Txn) :
  snd (get_in job key t) = emit (EvStmt (SelectValue (ID job) key)) t.
Proof.
  unfold_txn. destruct (stmt_fault _ _); simpl; [reflexivity|].
  destruct (head _) as [r|]; simpl; [|reflexivity]. now destruct (value r).
Qed.

(** What [iterate] leaves of the transaction. *)
Lemma iterate_in_readonly {S} (fn : S -> bytes -> bytes -> S * option error)
  (job : Job) (infoPrefix : bytes) (s : S) (t : Txn) :
  snd (iterate_in fn job infoPrefix s t)
  = emit (EvStmt (SelectInfoIter (ID job) (length infoPrefix) infoPrefix)) t.
Proof.
  unfold iterate_in, select_info_iter, bind, ret. simpl.
  now destruct (stmt_fault _ _).
Qed.

(** X3. Reads are not fenced and change nothing: [Get] and [Iterate] issue
    their one query and no claim lookup, leave both tables as they were, and
    return the same result through any handle of the same job id, with or
    without a session, whatever [system.jobs] holds. *)
Theorem X3_reads_unfenced {S} (fn : S -> bytes -> bytes -> S * option error)
  (job1 job2 : Job) (t1 t2 : Txn) (key : bytes) (s : S) :
  ID job1 = ID job2 -> infos t1 = infos t2 -> faults t1 = faults t2 ->
  (fst (Get (Job_InfoStorage job1 (Some t1)) key)
   = fst (Get (Job_InfoStorage job2 (Some t2)) key)
   /\ fst (Iterate fn (Job_InfoStorage job1 (Some t1)) key s)
      = fst (Iterate fn (Job_InfoStorage job2 (Some t2)) key s))
  /\ snd (Get (Job_InfoStorage job1 (Some t1)) key)
     = Job_InfoStorage job1 (Some (emit (EvStmt (SelectValue (ID job1) key)) t1))
  /\ snd (Iterate fn (Job_InfoStorage job1 (Some t1)) key s)
     = Job_InfoStorage job1
         (Some (emit (EvStmt (SelectInfoIter (ID job1) (length key) key)) t1)).
Proof.
  intros Hid Hinfos Hfaults. split; [split|split].
  - unfold Job_InfoStorage, Get, get, in_txn. simpl.
    pose proof (get_in_frame job1 key t1 t2 Hfaults) as Hg.
    rewrite Hinfos in Hg. specialize (Hg eq_refl).
    assert (E : fst (get_in job1 key t2) = fst (get_in job2 key t2)).
    { unfold get_in, select_value, bind, ret. simpl. now rewrite Hid. }
    destruct (get_in job1 key t1), (get_in job1 key t2), (get_in job2 key t2).
    simpl in *. congruence.
  - unfold Job_InfoStorage, Iterate, iterate, in_txn. simpl.
    assert (E : fst (iterate_in fn job1 key s t1) = fst (iterate_in fn job2 key s t2)).
    { unfold iterate_in, select_info_iter, bind, ret. simpl.
      rewrite Hid, Hinfos, Hfaults. now destruct (stmt_fault _ _). }
    destruct (iterate_in fn job1 key s t1), (iterate_in fn job2 key s t2).
    exact E.
  - unfold Job_InfoStorage, Get, get, in_txn. simpl.
    pose proof (get_in_readonly job1 key t1) as H.
    destruct (get_in job1 key t1). simpl in *. now rewrite H.
  - unfold Job_InfoStorage, Iterate, iterate, in_txn. simpl.
    pose proof (iterate_in_readonly fn job1 key s t1) as H.
    destruct (iterate_in fn job1 key s t1). simpl in *. now rewrite H.
Qed.

(** X3, on the example store: the stale session and the handle without a
    session read what the owner reads. *)
Lemma X3_reads_unfenced_witness :
  fst (Get (Job_InfoStorage ex_stale (Some ex_txn)) (bytes_of_string "a/1"))
  = fst (Get (Job_InfoStorage ex_unclaimed (Some ex_txn)) (bytes_of_string "a/1"))
  /\ fst (Iterate ex_count (Job_InfoStorage ex_stale (Some ex_txn)) (bytes_of_string "a/1") O)
     = fst (Iterate ex_count (Job_InfoStorage ex_unclaimed (Some ex_txn))
              (bytes_of_string "a/1") O).
Proof.
  exact (proj1 (X3_reads_unfenced ex_count ex_stale ex_unclaimed ex_txn ex_txn
                  (bytes_of_string "a/1") O eq_refl eq_refl eq_refl)).
Defined.

Lemma Datum_eq_dec (x y : Datum) : {x = y} + {x <> y}.
Proof.
  decide equality;
    [apply (List.list_eq_dec Byte.byte_eq_dec) | apply Z.eq_dec | apply string_dec].
Qed.

Lemma InfoRow_eq_dec (x y : InfoRow) : {x = y} + {x <> y}.
Proof.
  decide equality;
    [apply Datum_eq_dec | apply Z.eq_dec | apply (List.list_eq_dec Byte.byte_eq_dec)
    | apply Z.eq_dec].
Qed.

(** The newest of several revisions, when it is strictly the newest. *)
Lemma head_written_desc_newest (l : list InfoRow) (r : InfoRow) :
  In r l ->
  (forall r', In r' l -> r' <> r -> written r' < written r) ->
  head (order_by written_desc l) = Some r.
Proof.
  intros Hin Hmax.
  destruct (head (order_by written_desc l)) as [x|] eqn:Hh.
  - apply newest_is_max in Hh as [Hx Hle].
    destruct (InfoRow_eq_dec x r) as [->|Hne]; [reflexivity|].
    specialize (Hmax x Hx Hne). specialize (Hle r Hin). lia.
  - exfalso. pose proof (order_by_In written_desc r l) as Hiff.
    apply Hiff in Hin. destruct (order_by written_desc l); [exact Hin | discriminate].
Qed.

Lemma get_in_newest (job : Job) (t : Txn) (key v : bytes) (r : InfoRow) :
  stmt_fault (faults t) (SelectValue (ID job) key) = None ->
  In r (infos t) -> job_id r = ID job -> info_key r = key -> value r = DBytes v ->
  (forall r', In r' (infos t) -> job_id r' = ID job -> info_key r' = key -> r' <> r ->
              written r' < written r) ->
  fst (get_in job key t) = Val (v, true, None).
Proof.
  intros Hf Hin Hid Hk Hv Hmax. unfold_txn. rewrite Hf.
  rewrite (head_written_desc_newest _ r).
  - simpl. now rewrite Hv.
  - apply filter_In. split; [exact Hin|]. unfold is_info.
    now rewrite Hid, Hk, Z.eqb_refl, bytes_Equal_refl.
  - intros r' [Hr' Hp]%filter_In Hne. unfold is_info in Hp.
    apply andb_true_iff in Hp as [Hid' Hk']. apply Z.eqb_eq in Hid'.
    apply bytes_Equal_eq in Hk'. now apply Hmax.
Qed.

(** X4. [Get] returns the newest revision: when the rows of the key hold
    several revisions (rows the store holds from other writers, which
    [Write] itself never leaves), one of them written strictly after all the
    others and holding a byte string, [Get] returns that byte string with
    [found = true], whatever the older revisions hold. *)
Theorem X4_get_newest_revision (job : Job) (t : Txn) (key v : bytes) (r : InfoRow) :
  stmt_fault (faults t) (SelectValue (ID job) key) = None ->
  In r (infos t) -> job_id r = ID job -> info_key r = key -> value r = DBytes v ->
  (forall r', In r' (infos t) -> job_id r' = ID job -> info_key r' = key -> r' <> r ->
              written r' < written r) ->
  fst (Get (Job_InfoStorage job (Some t)) key) = Val (v, true, None).
Proof.
  intros Hf Hin Hid Hk Hv Hmax. unfold Job_InfoStorage, Get, get, in_txn. simpl.
  pose proof (get_in_newest job t key v r Hf Hin Hid Hk Hv Hmax) as Hg.
  now destruct (get_in job key t).
Qed.

(** X4, on the example store: ["b/1"] has a revision at 1 and one at 7. *)
Lemma X4_get_newest_revision_witness :
  fst (Get (Job_InfoStorage ex_owner (Some ex_txn)) (bytes_of_string "b/1"))
  = Val (bytes_of_string "b-new", true, None).
Proof.
  apply (X4_get_newest_revision ex_owner ex_txn _ _ (ex_row 7 "b/1" 7 "b-new"));
    try reflexivity.
  - simpl. tauto.
  - intros r' Hin Hid Hk Hne. simpl in Hin.
    repeat (destruct Hin as [<-|Hin]; [try discriminate Hk; try discriminate Hid;
                                        try (now destruct Hne); simpl; lia|]).
    destruct Hin.
Defined.

(** ** What a write leaves alone *)

Lemma filter_is_info_elsewhere (id id' : Z) (key key' : bytes) (l : list InfoRow) :
  id' <> id \/ key' <> key ->
  List.filter (is_info id' key') (List.filter (fun r => negb (is_info id key r)) l)
  = List.filter (is_info id' key') l.
Proof.
  intros Hne. induction l as [|r l IH]; simpl; [reflexivity|].
  destruct (is_info id key r) eqn:E; simpl.
  - rewrite IH. destruct (is_info id' key' r) eqn:E'; [|reflexivity].
    unfold is_info in E, E'.
    apply andb_true_iff in E as [Ei E], E' as [Ei' E'].
    apply bytes_Equal_eq in E, E'. apply Z.eqb_eq in Ei, Ei'.
    destruct Hne; congruence.
  - now rewrite IH.
Qed.

(** X5. A write changes one key of one job: whatever [Write] returns (no
    error, an error, a panic), a [Get] of another key, or of any key of
    another job, returns after it what it returned before it. *)
Theorem X5_write_frame (i i' : InfoStorage) (key v : bytes)
  (r : outcome (option error)) (other : Job) (key' : bytes) :
  Write i key v = (r, i') ->
  ID other <> ID (j i) \/ key' <> key ->
  fst (Get (Job_InfoStorage other (txn i')) key')
  = fst (Get (Job_InfoStorage other (txn i)) key').
Proof.
  unfold Job_InfoStorage, Write, Get, write, get, in_txn.
  destruct i as [job [t|]]; simpl.
  - destruct (write_in job key v t) as [r' t'] eqn:Hw. intros [= <- <-] Hne. simpl.
    apply write_in_frame in Hw as (Hrows & _ & _ & Hf).
    pose proof (get_in_frame other key' t' t Hf) as Hg.
    destruct (get_in other key' t'), (get_in other key' t). simpl in *. apply Hg.
    rewrite <- (filter_is_info_elsewhere (ID job) (ID other) key key' (infos t')),
      <- (filter_is_info_elsewhere (ID job) (ID other) key key' (infos t))
      by assumption.
    now rewrite Hrows.
  - now intros [= <- <-].
Qed.

(** X5, on the example store: the owner of job 7 writes ["a/1"]; the row of
    job 8 under the same key is read as before. *)
Lemma X5_write_frame_witness :
  exists i',
    Write (Job_InfoStorage ex_owner (Some ex_txn)) (bytes_of_string "a/1")
      (bytes_of_string "v") = (Val None, i')
    /\ fst (Get (Job_InfoStorage ex_cleared (txn i')) (bytes_of_string "a/1"))
       = Val (bytes_of_string "other-job", true, None).
Proof.
  eexists. split; [reflexivity|].
  eapply eq_trans;
    [eapply X5_write_frame with (i := Job_InfoStorage ex_owner (Some ex_txn))
                                (key := bytes_of_string "a/1")
                                (v := bytes_of_string "v") (r := Val None);
     [reflexivity | left; discriminate]
    | reflexivity].
Defined.

(** A successful write keeps the job of the handle and the plan of failures
    of its transaction. *)
Lemma Write_done_handle (i i' : InfoStorage) (t : Txn) (key v : bytes) :
  txn i = Some t -> Write i key v = (Val None, i') ->
  j i' = j i /\ exists t', txn i' = Some t' /\ faults t' = faults t.
Proof.
  unfold Write, write, in_txn. intros ->.
  destruct (write_in (j i) key v t) as [r t'] eqn:Hw. intros [= -> <-]. simpl.
  split; [reflexivity|]. exists t'. split; [reflexivity|].
  now apply write_in_done in Hw.
Qed.

(** X6. Writes to different keys compose: after a successful write of [v1]
    to [k1] and then of [v2] to [k2], in one transaction, [Get] returns [v1]
    for [k1] and [v2] for [k2]. *)
Theorem X6_two_writes (i i1 i2 : InfoStorage) (t : Txn) (k1 k2 v1 v2 : bytes) :
  txn i = Some t -> k1 <> k2 ->
  stmt_fault (faults t) (SelectValue (ID (j i)) k1) = None ->
  stmt_fault (faults t) (SelectValue (ID (j i)) k2) = None ->
  Write i k1 v1 = (Val None, i1) ->
  Write i1 k2 v2 = (Val None, i2) ->
  fst (Get i2 k1) = Val (v1, true, None) /\ fst (Get i2 k2) = Val (v2, true, None).
Proof.
  intros Ht Hne Hf1 Hf2 Hw1 Hw2.
  destruct (Write_done_handle i i1 t k1 v1 Ht Hw1) as (Hj & t1 & Ht1 & Hft).
  split.
  - rewrite (write_get_other i1 i2 k2 k1 v2 (Val None) Hw2 Hne).
    exact (write_get_same i i1 t k1 v1 Ht Hw1 Hf1).
  - apply (write_get_same i1 i2 t1 k2 v2 Ht1 Hw2). now rewrite Hft, Hj.
Qed.

(** X6, on the example store: the owner writes the two legacy keys. *)
Lemma X6_two_writes_witness :
  exists i1 i2,
    WriteLegacyPayload (Job_InfoStorage ex_owner (Some ex_txn)) (bytes_of_string "p")
    = (Val None, i1)
    /\ WriteLegacyProgress i1 (bytes_of_string "q") = (Val None, i2)
    /\ fst (GetLegacyPayload i2) = Val (bytes_of_string "p", true, None)
    /\ fst (GetLegacyProgress i2) = Val (bytes_of_string "q", true, None).
Proof.
  eexists _, _. split; [reflexivity|]. split; [reflexivity|].
  eapply X6_two_writes with (i := Job_InfoStorage ex_owner (Some ex_txn)) (t := ex_txn);
    try reflexivity.
  discriminate.
Defined.

(** ** The whole scan *)

(** The predicate of the query of [iterate] holds of the keys that start
    with the prefix. *)
Lemma firstn_length_prefix (p k : bytes) :
  firstn (length p) k = p <-> exists suffix, k = p ++ suffix.
Proof.
  split.
  - intros H. exists (skipn (length p) k). rewrite <- H at 1.
    symmetry. apply firstn_skipn.
  - intros [suffix ->]. induction p as [|x p IH]; simpl; [reflexivity|].
    now rewrite IH.
Qed.

Lemma In_scanned (job : Job) (infoPrefix : bytes) (t : Txn) (r : InfoRow) :
  In r (scanned job infoPrefix t)
  <-> In r (infos t) /\ job_id r = ID job
      /\ exists suffix, info_key r = infoPrefix ++ suffix.
Proof.
  unfold scanned. rewrite order_by_In, filter_In. unfold under_prefix.
  rewrite andb_true_iff, Z.eqb_eq, bytes_Equal_eq, firstn_length_prefix.
  tauto.
Qed.

Section CompleteScan.
Context {S : Type} (fn : S -> bytes -> bytes -> S * option error).
Hypothesis fn_succeeds : forall s k v, snd (fn s k v) = None.

(** Over rows that all hold byte strings, with a visitor that never fails,
    the loop runs to the end and has every key but the empty one visited. *)
Lemma loop_complete (l : list InfoRow) :
  forall st : loop_state S,
    (forall r, In r l -> exists b, value r = DBytes b) ->
    prevKey st = [] \/ In (prevKey st) (map fst (calls st)) ->
    exists st',
      loop fn (map NextRow (map result_row l)) st = (None, st', [])
      /\ (forall k, In k (map fst (calls st)) -> In k (map fst (calls st')))
      /\ (forall r, In r l ->
                    info_key r = [] \/ In (info_key r) (map fst (calls st'))).
Proof.
  induction l as [|r l IH]; intros st Hbytes Hprev.
  - exists st. simpl. split; [reflexivity|]. split; [auto|]. intros r [].
  - simpl. unfold loop_body. simpl.
    assert (Hl : forall x, In x l -> exists b, value x = DBytes b).
    { intros x Hx. apply Hbytes. now right. }
    destruct (bytes_Equal (info_key r) (prevKey st)) eqn:E.
    + apply bytes_Equal_eq in E.
      destruct (IH st Hl Hprev) as (st' & Hloop & Hkeep & Hall).
      exists st'. split; [exact Hloop|]. split; [exact Hkeep|].
      intros x [<-|Hx]; [|now apply Hall]. rewrite E.
      destruct Hprev as [Hp|Hp]; [now left | right; now apply Hkeep].
    + destruct (Hbytes r (or_introl eq_refl)) as [b Hb]. rewrite Hb.
      pose proof (fn_succeeds (fn_state st) (info_key r) b) as Hok.
      destruct (fn (fn_state st) (info_key r) b) as [s' o]. simpl in Hok. subst o.
      set (st1 := mkLoop (info_key r) s' (calls st ++ [(info_key r, b)])).
      assert (Hin1 : In (info_key r) (map fst (calls st1))).
      { simpl. rewrite map_app. apply in_or_app. right. now left. }
      destruct (IH st1 Hl (or_intror Hin1)) as (st' & Hloop & Hkeep & Hall).
      exists st'. split; [exact Hloop|]. split.
      * intros k Hk. apply Hkeep. simpl. rewrite map_app. apply in_or_app. now left.
      * intros x [<-|Hx]; [right; now apply Hkeep | now apply Hall].
Qed.

(** With no failure of the store or of the visitor and byte strings in every
    row under the prefix, [Iterate] visits every key but the empty one. *)
Lemma Iterate_visits_all (i i' : InfoStorage) (infoPrefix : bytes) (s : S)
  (t : Txn) (res : iter_result S) :
  txn i = Some t ->
  Iterate fn i infoPrefix s = (Val res, i') ->
  stmt_fault (faults t) (SelectInfoIter (ID (j i)) (length infoPrefix) infoPrefix) = None ->
  next_fault (faults t) = None ->
  (forall r suffix, In r (infos t) -> job_id r = ID (j i) ->
                    info_key r = infoPrefix ++ suffix -> exists b, value r = DBytes b) ->
  retErr res = close_fault (faults t)
  /\ forall r suffix,
      In r (infos t) -> job_id r = ID (j i) -> info_key r = infoPrefix ++ suffix ->
      info_key r <> [] ->
      In (info_key r) (map fst (visits res)).
Proof.
  intros Ht Hi Hq Hn Hbytes. unfold Iterate, iterate, in_txn in Hi. rewrite Ht in Hi.
  unfold iterate_in, select_info_iter, bind, ret in Hi. simpl in Hi.
  rewrite Hq, Hn in Hi. simpl in Hi. fold (scanned (j i) infoPrefix t) in Hi.
  unfold iterate_rows in Hi. simpl in Hi.
  destruct (loop_complete (scanned (j i) infoPrefix t) (mkLoop [] s []))
    as (st' & Hloop & _ & Hall).
  { intros r (Hr & Hid & suffix & Hk)%In_scanned. eauto. }
  { now left. }
  rewrite Hloop in Hi. simpl in Hi. injection Hi as <- _. simpl. split; [reflexivity|].
  intros r suffix Hr Hid Hk Hne.
  destruct (Hall r) as [He|Hin]; [|now destruct Hne | exact Hin].
  apply In_scanned. eauto.
Qed.

(** X7. The scan is complete: when the store fails neither the query nor a
    [Next], the visitor never fails and every row of the job whose key starts
    with the prefix holds a byte string, [Iterate] returns what [Close]
    returns and has visited every key of the job that starts with the prefix,
    the empty key excepted. *)
Theorem X7_iterate_complete (i i' : InfoStorage) (infoPrefix : bytes) (s : S)
  (t : Txn) (res : iter_result S) :
  txn i = Some t ->
  Iterate fn i infoPrefix s = (Val res, i') ->
  stmt_fault (faults t) (SelectInfoIter (ID (j i)) (length infoPrefix) infoPrefix) = None ->
  next_fault (faults t) = None ->
  (forall r suffix, In r (infos t) -> job_id r = ID (j i) ->
                    info_key r = infoPrefix ++ suffix -> exists b, value r = DBytes b) ->
  retErr res = close_fault (faults t)
  /\ forall r suffix,
      In r (infos t) -> job_id r = ID (j i) -> info_key r = infoPrefix ++ suffix ->
      info_key r <> [] ->
      In (info_key r) (map fst (visits res)).
Proof. apply Iterate_visits_all. Qed.
End CompleteScan.

(** X7, on the example store: the scan of job 7 under ["a/"]. *)
Lemma X7_iterate_complete_witness :
  exists res i',
    Iterate ex_count (Job_InfoStorage ex_owner (Some ex_txn)) (bytes_of_string "a/") O
    = (Val res, i')
    /\ retErr res = None
    /\ In (bytes_of_string "a/2") (map fst (visits res)).
Proof.
  eexists _, _. split; [reflexivity|].
  destruct (X7_iterate_complete ex_count (fun _ _ _ => eq_refl)
              (Job_InfoStorage ex_owner (Some ex_txn)) _ (bytes_of_string "a/") O
              ex_txn _ eq_refl eq_refl eq_refl eq_refl) as [Hret Hall].
  - intros r suffix Hin Hid Hk. simpl in Hin.
    repeat (destruct Hin as [<-|Hin];
            [try discriminate Hk; try discriminate Hid; eexists; reflexivity|]).
    destruct Hin.
  - split; [exact Hret|].
    apply (Hall (ex_row 7 "a/2" 2 "a2-old") (bytes_of_string "2"));
      [simpl; tauto | reflexivity | reflexivity | discriminate].
Defined.

(** ** Other ways out of the loop *)

Section OtherExits.
Context {S : Type} (fn : S -> bytes -> bytes -> S * option error).

(** X8. A failing [Next] or a column that is not a byte string ends the
    scan: when the loop has run through the calls of [Next] before [x]
    without leaving and [x] is a failure of [Next] (whatever its flag), a row
    whose key is not a byte string, or a row with a new key whose value is
    not a byte string, [iterate] returns that error (with the error of
    [Close] as its secondary error when [Close] fails too) without calling
    the visitor for [x]; the calls made before stand, the later calls of
    [Next] are not made, and the cursor is closed. *)
Theorem X8_scan_stops (rows : Rows) (s : S) (pre post : list next_result)
  (x : next_result) (st : loop_state S) (err : error) :
  pending rows = pre ++ x :: post ->
  loop fn pre (mkLoop [] s []) = (None, st, []) ->
  stops_with st x err ->
  iterate_rows fn rows s
  = mkIter (CombineErrors (Some err) (close_err rows)) (fn_state st) (calls st)
      (Some (mkRows post (close_err rows) true)).
Proof.
  intros Hp Hpre Hx. unfold iterate_rows. rewrite Hp, (loop_app _ _ _ _ _ Hpre).
  destruct Hx as [[] e | d d' Hd | k d E Hd]; simpl; try reflexivity.
  - unfold loop_body. simpl.
    destruct d as [b| | |]; [now destruct (Hd b) | reflexivity ..].
  - unfold loop_body. simpl. rewrite E.
    destruct d as [b| | |]; [now destruct (Hd b) | reflexivity ..].
Qed.

(** X9. An older revision is not looked at: a row whose key is the key just
    visited is skipped before its value is decoded, so the scan goes as if
    the cursor did not hold that row, even when its value is not a byte
    string. *)
Theorem X9_older_revision_ignored (rows : Rows) (s : S) (pre post : list next_result)
  (k : bytes) (d : Datum) (st : loop_state S) :
  pending rows = pre ++ NextRow (DBytes k, d) :: post ->
  loop fn pre (mkLoop [] s []) = (None, st, []) ->
  bytes_Equal k (prevKey st) = true ->
  iterate_rows fn rows s
  = iterate_rows fn (mkRows (pre ++ post) (close_err rows) (closed rows)) s.
Proof.
  intros Hp Hpre E. unfold iterate_rows. simpl.
  rewrite Hp, !(loop_app _ _ _ _ _ Hpre). simpl. unfold loop_body. simpl.
  now rewrite E.
Qed.

(** What the loop adds to the calls, replayed. *)
Lemma loop_replay (nexts : list next_result) :
  forall (st st' : loop_state S) (err : option error) (rest : list next_result),
    loop fn nexts st = (err, st', rest) ->
    exists new es,
      calls st' = calls st ++ new
      /\ replay fn (fn_state st) new = (fn_state st', es)
      /\ Forall (fun e => e = None) (removelast es)
      /\ (forall e, last es = Some (Some e) -> err = Some e).
Proof.
  induction nexts as [|[row|[] e] nexts IH]; intros st st' err rest; simpl.
  - intros [= <- <- <-]. exists [], []. rewrite app_nil_r.
    repeat split; [constructor | discriminate].
  - unfold loop_body.
    destruct (fst row) as [k| | |];
      try (intros [= <- <- <-]; exists [], []; rewrite app_nil_r;
           repeat split; [constructor | discriminate]).
    destruct (bytes_Equal k (prevKey st)); [apply IH|].
    destruct (snd row) as [v| | |];
      try (intros [= <- <- <-]; exists [], []; simpl; rewrite app_nil_r;
           repeat split; [constructor | discriminate]).
    destruct (fn (fn_state st) k v) as [s1 [e|]] eqn:Hfn.
    + intros [= <- <- <-]. exists [(k, v)], [Some e]. simpl. rewrite Hfn.
      repeat split; [constructor | now intros e' [= <-]].
    + intros Hloop. apply IH in Hloop as (new & es & Hcalls & Hrep & Hnone & Hlast).
      simpl in Hcalls, Hrep. exists ((k, v) :: new), (None :: es). simpl.
      rewrite Hfn, Hrep. split; [now rewrite Hcalls, <- app_assoc|].
      split; [reflexivity|]. split.
      * destruct es; [constructor | now constructor].
      * destruct es; [discriminate | exact Hlast].
  - intros [= <- <- <-]. exists [], []. rewrite app_nil_r.
    repeat split; [constructor | discriminate].
  - intros [= <- <- <-]. exists [], []. rewrite app_nil_r.
    repeat split; [constructor | discriminate].
Qed.

(** X10. The visitor is called in turn and never after it failed: the state
    [iterate] leaves the visitor in is the state reached by calling it on the
    visited records in order, each call from the state the previous one left;
    every call but the last returned no error, and when the last call
    returned one, that error is what [iterate] returns (with the error of
    [Close] as its secondary error when [Close] fails too). *)
Theorem X10_visitor_in_turn (rows : Rows) (s : S) :
  exists es,
    replay fn s (visits (iterate_rows fn rows s))
    = (visitor (iterate_rows fn rows s), es)
    /\ Forall (fun e => e = None) (removelast es)
    /\ forall e, last es = Some (Some e) ->
                 retErr (iterate_rows fn rows s)
                 = CombineErrors (Some e) (close_err rows).
Proof.
  unfold iterate_rows.
  destruct (loop fn (pending rows) (mkLoop [] s [])) as [[err st] rest] eqn:Hloop.
  apply loop_replay in Hloop as (new & es & Hcalls & Hrep & Hnone & Hlast).
  simpl in *. exists es. rewrite Hcalls. split; [exact Hrep|].
  split; [exact Hnone|]. intros e He. now rewrite (Hlast e He).
Qed.
End OtherExits.

(** X8, on the example store: with a visitor that never fails, the scan of
    all the rows of job 7 stops at the row of ["c/bad"], which holds NULL. *)
Lemma X8_scan_stops_witness :
  iterate_rows ex_count ex_rows O
  = mkIter (Some (WithSecondary
                    (AssertionFailedf "job info: expected value to be DBytes (was %T)"
                       [ArgType DNull])
                    ex_close_error))
      3%nat
      [(bytes_of_string "a/1", bytes_of_string "a1-new");
       (bytes_of_string "a/2", bytes_of_string "a2-new");
       (bytes_of_string "b/1", bytes_of_string "b-new")]
      (Some (mkRows [] (Some ex_close_error) true)).
Proof.
  apply (X8_scan_stops ex_count ex_rows O
           (map NextRow
              (map result_row
                 [ex_row 7 "" 4 "empty"; ex_row 7 "a/1" 5 "a1-new";
                  ex_row 7 "a/1" 3 "a1-old"; ex_row 7 "a/2" 8 "a2-new";
                  ex_row 7 "a/2" 2 "a2-old"; ex_row 7 "b/1" 7 "b-new";
                  ex_row 7 "b/1" 1 "b-old"]))
           [] (NextRow (DBytes (bytes_of_string "c/bad"), DNull))
           (mkLoop (bytes_of_string "b/1") 3%nat
              [(bytes_of_string "a/1", bytes_of_string "a1-new");
               (bytes_of_string "a/2", bytes_of_string "a2-new");
               (bytes_of_string "b/1", bytes_of_string "b-new")]));
    [reflexivity | reflexivity |].
  apply stops_value; [reflexivity | discriminate].
Defined.

(** X9, on the example store: the older revision of ["a/1"], replaced by a
    row of the same key that holds NULL, is passed over all the same. *)
Lemma X9_older_revision_ignored_witness :
  iterate_rows ex_count
    (mkRows (map NextRow [result_row (ex_row 7 "a/1" 5 "a1-new");
                          (DBytes (bytes_of_string "a/1"), DNull);
                          result_row (ex_row 7 "a/2" 8 "a2-new")])
       None false) O
  = iterate_rows ex_count
      (mkRows (map NextRow [result_row (ex_row 7 "a/1" 5 "a1-new");
                            result_row (ex_row 7 "a/2" 8 "a2-new")])
         None false) O.
Proof.
  apply (X9_older_revision_ignored ex_count
           (mkRows (map NextRow [result_row (ex_row 7 "a/1" 5 "a1-new");
                                 (DBytes (bytes_of_string "a/1"), DNull);
                                 result_row (ex_row 7 "a/2" 8 "a2-new")])
              None false) O
           [NextRow (result_row (ex_row 7 "a/1" 5 "a1-new"))]
           [NextRow (result_row (ex_row 7 "a/2" 8 "a2-new"))]
           (bytes_of_string "a/1") DNull
           (mkLoop (bytes_of_string "a/1") 1%nat
              [(bytes_of_string "a/1", bytes_of_string "a1-new")]));
    reflexivity.
Defined.

(** ** The scan and the other operations *)

Section ScanAndGet.
Context {S : Type} (fn : S -> bytes -> bytes -> S * option error).

(** X11. [Iterate] and [Get] agree: when no two rows of a key of the job
    share a write time, a record [Iterate] visits is the record [Get]
    returns for its key in the same transaction, provided the store does not
    fail the lookup. *)
Theorem X11_iterate_agrees_with_get (i i' : InfoStorage) (infoPrefix : bytes) (s : S)
  (t : Txn) (res : iter_result S) (k v : bytes) :
  txn i = Some t ->
  Iterate fn i infoPrefix s = (Val res, i') ->
  In (k, v) (visits res) ->
  (forall r1 r2, In r1 (infos t) -> In r2 (infos t) ->
                 job_id r1 = ID (j i) -> job_id r2 = ID (j i) ->
                 info_key r1 = k -> info_key r2 = k ->
                 written r1 = written r2 -> r1 = r2) ->
  stmt_fault (faults t) (SelectValue (ID (j i)) k) = None ->
  fst (Get i k) = Val (v, true, None).
Proof.
  intros Ht Hi Hin Hpk Hf.
  pose proof (Iterate_good fn i i' infoPrefix s t res Ht Hi) as [_ Hnew _].
  rewrite List.Forall_forall in Hnew.
  destruct (newest_of_scanned _ _ _ _ _ (Hnew _ Hin)) as (_ & ts & Hrow & Hmax).
  unfold Get, get, in_txn. rewrite Ht.
  pose proof (get_in_newest (j i) t k v (mkInfoRow (ID (j i)) k ts (DBytes v))
                Hf Hrow eq_refl eq_refl eq_refl) as Hg.
  destruct (get_in (j i) k t) as [r t']. simpl in *. apply Hg.
  intros r' Hr' Hid' Hk' Hne. specialize (Hmax r' Hr' Hid' Hk').
  destruct (Z.eq_dec (written r') ts) as [E|E]; [|lia].
  destruct Hne. now apply Hpk.
Qed.

(** X12. [Iterate] shows what [Write] wrote: after a successful write of [v]
    to a key that is not empty and starts with the prefix, a scan of the
    prefix in the same transaction, which the store and the visitor do not
    fail, over rows that all hold byte strings, visits the key, and visits it
    with [v] only. *)
Theorem X12_write_then_iterate (i i1 i2 : InfoStorage) (t : Txn)
  (infoPrefix suffix v : bytes) (s : S) (res : iter_result S) :
  (forall s0 k0 v0, snd (fn s0 k0 v0) = None) ->
  txn i = Some t ->
  infoPrefix ++ suffix <> [] ->
  stmt_fault (faults t) (SelectInfoIter (ID (j i)) (length infoPrefix) infoPrefix) = None ->
  next_fault (faults t) = None ->
  (forall r sfx, In r (infos t) -> job_id r = ID (j i) ->
                 info_key r = infoPrefix ++ sfx -> exists b, value r = DBytes b) ->
  Write i (infoPrefix ++ suffix) v = (Val None, i1) ->
  Iterate fn i1 infoPrefix s = (Val res, i2) ->
  In (infoPrefix ++ suffix, v) (visits res)
  /\ forall v', In (infoPrefix ++ suffix, v') (visits res) -> v' = v.
Proof.
  intros Hfn Ht Hne Hq Hn Hbytes Hw Hi.
  set (key := infoPrefix ++ suffix) in *.
  assert (Hw' : exists t1, i1 = mkInfoStorage (j i) (Some t1)
                           /\ write_in (j i) key v t = (Val None, t1)).
  { unfold Write, write, in_txn in Hw. rewrite Ht in Hw.
    destruct (write_in (j i) key v t) as [r t1]. injection Hw as -> <-. eauto. }
  destruct Hw' as (t1 & -> & Hw1).
  apply write_in_done in Hw1 as (Hinfos & _ & _ & Hfaults). simpl in *.
  assert (Hone : forall v', In (key, v') (visits res) -> v' = v).
  { intros v' Hin.
    pose proof (Iterate_good fn (mkInfoStorage (j i) (Some t1)) i2 infoPrefix s t1 res
                  eq_refl Hi) as [_ Hnew _].
    rewrite List.Forall_forall in Hnew.
    destruct (newest_of_scanned _ _ _ _ _ (Hnew _ Hin)) as (_ & ts & Hrow & _).
    simpl in Hrow.
    assert (Hf : In (mkInfoRow (ID (j i)) key ts (DBytes v'))
                   (List.filter (is_info (ID (j i)) key) (infos t1))).
    { apply filter_In. split; [exact Hrow | apply is_info_inserted]. }
    rewrite Hinfos, filter_is_info_replaced in Hf.
    destruct Hf as [Hf|[]]. now injection Hf. }
  split; [|exact Hone].
  destruct (Iterate_visits_all fn Hfn (mkInfoStorage (j i) (Some t1)) i2 infoPrefix s
              t1 res eq_refl Hi) as [_ Hall]; simpl.
  - now rewrite Hfaults.
  - now rewrite Hfaults.
  - intros r sfx Hr Hid Hk. rewrite Hinfos in Hr.
    apply in_app_or in Hr as [Hr|[<-|[]]]; [|simpl; eauto].
    apply filter_In in Hr as [Hr _]. eauto.
  - specialize (Hall (mkInfoRow (ID (j i)) key (now t) (DBytes v)) suffix).
    simpl in Hall. rewrite Hinfos in Hall.
    apply in_map_iff in Hall as ([k' v'] & Hk' & Hin);
      [| apply in_or_app; right; now left | reflexivity | reflexivity | exact Hne].
    simpl in Hk'. subst k'. now rewrite <- (Hone v' Hin).
Qed.
End ScanAndGet.

(** X11, on the example store: what the scan of ["b/"] visits is what [Get]
    returns for ["b/1"]. *)
Lemma X11_iterate_agrees_with_get_witness :
  exists res i',
    Iterate ex_count (Job_InfoStorage ex_owner (Some ex_txn)) (bytes_of_string "b/") O
    = (Val res, i')
    /\ In (bytes_of_string "b/1", bytes_of_string "b-new") (visits res)
    /\ fst (Get (Job_InfoStorage ex_owner (Some ex_txn)) (bytes_of_string "b/1"))
       = Val (bytes_of_string "b-new", true, None).
Proof.
  eexists _, _. split; [reflexivity|]. split; [simpl; tauto|].
  eapply X11_iterate_agrees_with_get
    with (fn := ex_count) (infoPrefix := bytes_of_string "b/") (s := O) (t := ex_txn);
    [reflexivity | reflexivity | simpl; tauto | | reflexivity].
  intros r1 r2 H1 H2 Hid1 Hid2 Hk1 Hk2 Hw. simpl in H1, H2.
  repeat (destruct H1 as [<-|H1]; [try discriminate Hk1; try discriminate Hid1|]);
    try destruct H1;
    repeat (destruct H2 as [<-|H2]; [try discriminate Hk2; try discriminate Hid2;
                                      try discriminate Hw; try reflexivity|]);
    destruct H2.
Defined.

(** X12, on the example store: the owner writes ["a/3"] and scans ["a/"]. *)
Lemma X12_write_then_iterate_witness :
  exists i1 res i2,
    Write (Job_InfoStorage ex_owner (Some ex_txn)) (bytes_of_string "a/3")
      (bytes_of_string "a3") = (Val None, i1)
    /\ Iterate ex_count i1 (bytes_of_string "a/") O = (Val res, i2)
    /\ In (bytes_of_string "a/3", bytes_of_string "a3") (visits res).
Proof.
  eexists _, _, _. split; [reflexivity|]. split; [reflexivity|].
  eapply (X12_write_then_iterate ex_count (Job_InfoStorage ex_owner (Some ex_txn)) _ _
            ex_txn (bytes_of_string "a/") (bytes_of_string "3") (bytes_of_string "a3") O);
    try reflexivity; try discriminate.
  intros r sfx Hin Hid Hk. simpl in Hin.
  repeat (destruct Hin as [<-|Hin];
          [try discriminate Hk; try discriminate Hid; eexists; reflexivity|]).
  destruct Hin.
Defined.
